(** * gprofiler: process control, namespace executor, mutex and path helpers

    A shallow embedding of [gprofiler/utils.py] and [gprofiler/exceptions.py]
    together with the properties of the supervisor, the namespace executor,
    the system mutex, the path resolver and the output locator. *)

From Stdlib Require Import ZArith List Bool Ascii String Lia.
From Stdlib Require Import Permutation Sorted DecimalString.
Import ListNotations.

Local Open Scope string_scope.
Local Open Scope list_scope.

(** ** Python values and exceptions shared by the modules below *)

(** [bytes] objects; an absent capture ([None]) is an [option bytes]. *)
Definition bytes := list ascii.

(** A command: [Union[str, List[str]]]. *)
Inductive command : Type :=
| CmdStr (s : string)
| CmdList (l : list string).

(** [str(n)] and [repr(n)] of an [int]. *)
Definition str_of_int (n : Z) : string := NilZero.string_of_int (Z.to_int n).

(** The exceptions that the modelled functions raise or let through.
    [OSError] carries its [errno]; [OtherException] stands for any exception
    raised by a collaborator (for instance [KeyboardInterrupt]). *)
Inductive exn : Type :=
| AssertionError (msg : string)
| IndexError
| KeyError (key : string)
| ValueError (msg : string)
| OSError (errno : Z)
| TimeoutError
| StopEventSetException
| ProcessStoppedException
| TimeoutExpired (cmd : command) (timeout : Z)
| CalledProcessError (returncode : Z) (cmd : list string)
                     (output stderr : option bytes)
| OtherException (name : string).

(** The outcome of a call: a returned value or a raised exception. *)
Inductive result (A : Type) : Type :=
| Ok (a : A)
| Raise (e : exn).
Arguments Ok {A} a.
Arguments Raise {A} e.

Definition bind {A B : Type} (r : result A) (k : A -> result B) : result B :=
  match r with
  | Ok a => k a
  | Raise e => Raise e
  end.

Declare Scope py_scope.
Delimit Scope py_scope with py.
Notation "x <- c ;; k" := (bind c (fun x => k))
  (at level 61, c at next level, right associativity) : py_scope.

(** ** String helpers: [str.startswith], [str.endswith], [str.split] *)

Definition sep : ascii := "/"%char.

Definition startswith_char (s : string) (c : ascii) : bool :=
  match s with
  | String c' _ => Ascii.eqb c' c
  | EmptyString => false
  end.

Fixpoint endswith_char (s : string) (c : ascii) : bool :=
  match s with
  | EmptyString => false
  | String c' EmptyString => Ascii.eqb c' c
  | String _ s' => endswith_char s' c
  end.

(** [s.lstrip(c)] *)
Fixpoint lstrip (c : ascii) (s : string) : string :=
  match s with
  | String c' s' => if Ascii.eqb c' c then lstrip c s' else s
  | EmptyString => EmptyString
  end.

(** [s.split(c)]: never empty, [""] for the empty string. *)
Fixpoint split (c : ascii) (s : string) : list string :=
  match s with
  | EmptyString => [EmptyString]
  | String c' s' =>
      if Ascii.eqb c' c then EmptyString :: split c s'
      else match split c s' with
           | w :: ws => String c' w :: ws
           | [] => [String c' EmptyString]
           end
  end.

(** ** Path Resolver *)

Module PathResolver.

(** [posixpath.isabs] *)
Definition isabs (s : string) : bool := startswith_char s sep.

(** [posixpath.join] with one component. *)
Definition join (a b : string) : string :=
  if startswith_char b sep then b
  else if (String.eqb a "" || endswith_char a sep)%bool then a ++ b
  else a ++ String sep b.

(** [pathlib]'s POSIX [splitroot]: the root and the rest of a path.  Exactly
    two leading slashes are kept as the root ["//"]. *)
Definition splitroot (part : string) : string * string :=
  if startswith_char part sep then
    let stripped := lstrip sep part in
    if Nat.eqb (String.length part - String.length stripped) 2
    then ("//", stripped)
    else ("/", stripped)
  else ("", part).

Definition keep_component (x : string) : bool :=
  negb (String.eqb x "") && negb (String.eqb x ".").

(** [Path(p).parts] for a POSIX path. *)
Definition parts (p : string) : list string :=
  if String.eqb p "" then []
  else
    let '(root, rel) := splitroot p in
    let comps := filter keep_component (split sep rel) in
    if String.eqb root "" then comps else root :: comps.

(** The part of the file system the resolver looks at: for a path string,
    the target of the symbolic link it names, if it names one
    ([os.path.islink] and [os.readlink]). *)
Record filesystem : Type := { symlink : string -> option string }.

Definition islink (fs : filesystem) (p : string) : bool :=
  match symlink fs p with Some _ => true | None => false end.

(** One iteration of the loop of [resolve_proc_root_links]. *)
Definition resolve_step (fs : filesystem) (proc_root path part : string)
  : string :=
  let next_path := join path part in
  match symlink fs next_path with
  | Some link =>
      if isabs link then
        (* absolute - prefix with proc_root *)
        proc_root ++ link
      else
        (* relative: just join *)
        join path link
  | None => next_path
  end.

Fixpoint resolve_loop (fs : filesystem) (proc_root path : string)
  (ps : list string) : string :=
  match ps with
  | [] => path
  | part :: rest =>
      resolve_loop fs proc_root (resolve_step fs proc_root path part) rest
  end.

(** [resolve_proc_root_links].  The text of the failed assertion, which
    the code builds from [repr(ns_path)], is not modelled: the message here
    stands for it. *)
Definition resolve_proc_root_links (fs : filesystem)
  (proc_root ns_path : string) : result string :=
  match parts ns_path with
  | [] => Raise IndexError
  | p0 :: rest =>
      if String.eqb p0 "/" then Ok (resolve_loop fs proc_root proc_root rest)
      else Raise (AssertionError "expected ns_path to be absolute")
  end.

(** A root with one symbolic link, [<root>/abs -> /etc/target]. *)
Definition one_link_fs (root : string) : filesystem :=
  {| symlink := fun p =>
       if String.eqb p (root ++ "/abs") then Some "/etc/target" else None |}.

End PathResolver.

(** ** Sorting as Python does it

    [list.sort] and [sorted] are stable: elements that compare equal keep
    their order.  Insertion from the right, placing an element in front of
    the first one it is not greater than, is such a sort. *)

Section Sorting.
Context {A : Type} (le : A -> A -> bool).

Fixpoint insert_sorted (x : A) (l : list A) : list A :=
  match l with
  | [] => [x]
  | y :: t => if le x y then x :: l else y :: insert_sorted x t
  end.

Definition py_sort (l : list A) : list A :=
  fold_right insert_sorted [] l.
End Sorting.

(** [sorted(l, key=key)] with integer keys. *)
Definition sorted_by_key {A : Type} (key : A -> nat) (l : list A) : list A :=
  py_sort (fun x y => Nat.leb (key x) (key y)) l.

(** [l.sort()] on a list of [str]. *)
Definition sort_strings (l : list string) : list string :=
  py_sort String.leb l.

(** ** Cancellable wait primitive and Output Locator *)

Module OutputLocator.

(** What the waiting thread observes.  Index [k] is the number of the
    observation: the [k]-th evaluation of the condition, the [k]-th
    [stop_event.wait(0.1)] and the [k]-th later reading of the clock. *)
Record clock : Type := {
  monotonic_start : Z;          (* the reading that fixes [end_time] *)
  monotonic_at : nat -> Z       (* the readings inside the loop *)
}.

(** The loop of [wait_event], started at observation [k].  [None]: still
    waiting after [fuel] iterations.  [Some (Ok k')]: the condition held at
    observation [k']. *)
Fixpoint wait_event_loop (clk : clock) (end_time : Z)
  (stop_event : nat -> bool) (condition : nat -> bool)
  (k fuel : nat) : option (result nat) :=
  match fuel with
  | O => None
  | S fuel' =>
      if condition k then Some (Ok k)
      else if stop_event k then Some (Raise StopEventSetException)
      else if (monotonic_at clk k >? end_time)%Z then Some (Raise TimeoutError)
      else wait_event_loop clk end_time stop_event condition (S k) fuel'
  end.

Definition wait_event (clk : clock) (timeout : Z)
  (stop_event : nat -> bool) (condition : nat -> bool)
  (fuel : nat) : option (result nat) :=
  let end_time := (monotonic_start clk + timeout)%Z in
  wait_event_loop clk end_time stop_event condition 0 fuel.

(** [fnmatch] for a pattern whose only wildcard is one trailing star, which
    is what [f"{prefix}*"] is for a prefix free of glob metacharacters: the
    star matches any run of characters without a slash.  What [glob.glob]
    does with metacharacters inside the prefix, with doubled slashes and
    with names that start with a dot is not modelled; the properties of the
    locator below hold for whatever list of matches [glob] returns. *)
Fixpoint no_sep (s : string) : bool :=
  match s with
  | EmptyString => true
  | String c s' => negb (Ascii.eqb c sep) && no_sep s'
  end.

Fixpoint fnmatch (pat s : string) : bool :=
  match pat with
  | EmptyString => String.eqb s ""
  | String "*" EmptyString => no_sep s
  | String c pat' =>
      match s with
      | String c' s' => Ascii.eqb c c' && fnmatch pat' s'
      | EmptyString => false
      end
  end.

(** The directory that the profilers write to: [listing k] are the paths
    present at observation [k], in the order the system lists them. *)
Definition directory := nat -> list string.

(** [glob.glob(pattern)] at observation [k]. *)
Definition glob (dir : directory) (k : nat) (pattern : string) : list string :=
  filter (fnmatch pattern) (dir k).

(** [output_files[:-1]] and [output_files[-1:]] *)
Definition all_but_last {A : Type} (l : list A) : list A := removelast l.

Definition last_slice {A : Type} (l : list A) : list A :=
  match rev l with
  | [] => []
  | x :: _ => [x]
  end.

(** The result of the locator: the path it returns and the paths it has
    passed to [os.unlink], in order. *)
Record located : Type := {
  path : string;
  unlinked : list string
}.

(** The part of [wait_for_file_by_prefix] after the wait, on the re-listed
    matches. *)
Definition pick_output (output_files : list string) : result located :=
  let '(output_files', removed) :=
    if negb (Nat.eqb (List.length output_files) 1) then
      let sorted := sort_strings output_files in
      (last_slice sorted, all_but_last sorted)
    else (output_files, [])
  in
  match output_files' with
  | [] => Raise IndexError
  | f :: _ => Ok {| path := f; unlinked := removed |}
  end.

Definition wait_for_file_by_prefix (dir : directory) (clk : clock)
  (prefix : string) (timeout : Z) (stop_event : nat -> bool) (fuel : nat)
  : option (result located) :=
  let glob_pattern := (prefix ++ "*")%string in
  match wait_event clk timeout stop_event
          (fun k => Nat.ltb 0 (List.length (glob dir k glob_pattern))) fuel with
  | None => None
  | Some (Raise e) => Some (Raise e)
  | Some (Ok k) => Some (pick_output (glob dir (S k) glob_pattern))
  end.

(** A directory for the examples: empty at the first two observations,
    then holding [files]. *)
Definition appearing (files : list string) : directory :=
  fun k => if Nat.ltb k 2 then [] else files.

(** A clock that advances by one unit per observation. *)
Definition steady_clock : clock :=
  {| monotonic_start := 0%Z; monotonic_at := fun k => Z.of_nat (S k) |}.

End OutputLocator.

(** ** Process Supervisor *)

Module Supervisor.

Import OutputLocator.

Inductive log_record : Type :=
| LogRunning (cmd_text : string)
| LogExitCode (args : list string) (returncode : Z)
| LogStdout (args : list string) (out : bytes)
| LogStderr (args : list string) (err : bytes).

(** What a call does to the outside, in order. *)
Inductive event : Type :=
| EvLog (r : log_record)
| EvPopen (args : list string) (clear_ld_library_path : bool)
| EvCommunicate (timeout : option Z) (input : option bytes)
| EvWait
| EvSendSignal (sig : Z)
| EvPoll
| EvPopenExit.

(** How one [process.communicate] call ends. *)
Inductive comm_outcome : Type :=
| CommDone (stdout stderr : option bytes) (retcode : Z)
| CommExpired                      (* the child has not exited yet *)
| CommRaises (e : exn).

(** How the [process.wait()] of the branch without capture ends. *)
Inductive wait_outcome : Type :=
| WaitDone (retcode : Z)
| WaitForever
| WaitRaises (e : exn).

(** The child and the environment of one call. *)
Record child : Type := {
  staticx_dir : option string;       (* [os.getenv("STATICX_BUNDLE_DIR")] *)
  popen_error : option exn;          (* [Popen] may fail to start the child *)
  communicate_at : nat -> comm_outcome;
  wait_result : wait_outcome
}.

Record run_args : Type := {
  cmd : command;
  stop_event : option (nat -> bool); (* [is_set()] at the k-th check *)
  suppress_log : bool;
  via_staticx : bool;
  check : bool;
  timeout : option Z;
  kill_signal : Z;
  communicate : bool;
  stdin : option bytes
}.

Record CompletedProcess : Type := {
  args : list string;
  returncode : Z;
  stdout : option bytes;
  stderr : option bytes
}.

Definition cmd_text (c : command) : string :=
  match c with
  | CmdList l => String.concat " " l
  | CmdStr s => s
  end.

(** The argument vector and the environment change of [start_process]. *)
Definition start_process (w : child) (c : command) (via_staticx : bool)
  : list string * bool :=
  let cmd := match c with CmdStr s => [s] | CmdList l => l end in
  match staticx_dir w with
  | Some d =>
      if via_staticx
      then ([(d ++ "/.staticx.interp")%string; "--library-path"; d] ++ cmd, false)
      else (cmd, true)
  | None => (cmd, false)
  end.

(** The polling loop of [run_process] when a stop event is given. *)
Fixpoint supervise_loop (w : child) (clk : clock) (a : run_args)
  (is_set : nat -> bool) (end_time : option Z) (k fuel : nat)
  : option (list event * result (option bytes * option bytes * Z)) :=
  match fuel with
  | O => None
  | S fuel' =>
      let ev := EvCommunicate (Some 1%Z) (stdin a) in
      match communicate_at w k with
      | CommDone out err rc => Some ([ev], Ok (out, err, rc))
      | CommRaises e => Some ([ev], Raise e)
      | CommExpired =>
          if is_set k then Some ([ev], Raise ProcessStoppedException)
          else
            let expired :=
              match end_time, timeout a with
              | Some et, Some t =>
                  if (monotonic_at clk k >? et)%Z
                  then Some (TimeoutExpired (cmd a) t) else None
              | _, _ => None
              end in
            match expired with
            | Some e => Some ([ev], Raise e)
            | None =>
                match supervise_loop w clk a is_set end_time (S k) fuel' with
                | Some (tr, r) => Some (ev :: tr, r)
                | None => None
                end
            end
      end
  end.

(** The body of the [try] in [run_process]. *)
Definition wait_phase (w : child) (clk : clock) (a : run_args) (fuel : nat)
  : option (list event * result (option bytes * option bytes * Z)) :=
  match stop_event a with
  | None =>
      match timeout a with
      | Some t =>
          Some ([], Raise (AssertionError
                             ("expected no timeout, got " ++ str_of_int t)))
      | None =>
          if communicate a then
            (* wait for stderr & stdout to be closed *)
            let ev := EvCommunicate None (stdin a) in
            match communicate_at w 0 with
            | CommDone out err rc => Some ([ev], Ok (out, err, rc))
            | CommExpired => None
            | CommRaises e => Some ([ev], Raise e)
            end
          else
            (* just wait for the process to exit *)
            match wait_result w with
            | WaitDone rc => Some ([EvWait], Ok (None, None, rc))
            | WaitForever => None
            | WaitRaises e => Some ([EvWait], Raise e)
            end
      end
  | Some is_set =>
      if negb (communicate a) then
        Some ([], Raise (AssertionError
                           "expected communicate=True if stop_event is given"))
      else
        let end_time :=
          match timeout a with
          | Some t => Some (monotonic_start clk + t)%Z
          | None => None
          end in
        supervise_loop w clk a is_set end_time 0 fuel
  end.

Definition nonempty (b : option bytes) : option bytes :=
  match b with
  | Some (_ :: _) => b
  | _ => None
  end.

Definition completion_logs (suppress_log : bool) (r : CompletedProcess)
  : list event :=
  EvLog (LogExitCode (args r) (returncode r)) ::
  (if suppress_log then []
   else
     match nonempty (stdout r) with
     | Some out => [EvLog (LogStdout (args r) out)]
     | None => []
     end ++
     match nonempty (stderr r) with
     | Some err => [EvLog (LogStderr (args r) err)]
     | None => []
     end).

(** [run_process].  [None]: the call has not returned after [fuel] polls (or
    blocks for ever on a child that never exits). *)
Definition run_process (w : child) (clk : clock) (a : run_args) (fuel : nat)
  : option (list event * result CompletedProcess) :=
  let '(argv, clear_env) := start_process w (cmd a) (via_staticx a) in
  let started := [EvLog (LogRunning (cmd_text (cmd a)))] in
  match popen_error w with
  | Some e => Some (started, Raise e)
  | None =>
      match wait_phase w clk a fuel with
      | None => None
      | Some (tr, Raise e) =>
          Some (started ++ EvPopen argv clear_env :: tr
                  ++ [EvSendSignal (kill_signal a); EvWait; EvPopenExit],
                Raise e)
      | Some (tr, Ok (out, err, retcode)) =>
          let result := {| args := argv; returncode := retcode;
                           stdout := out; stderr := err |} in
          let trace := started ++ EvPopen argv clear_env :: tr
                         ++ [EvPoll; EvPopenExit]
                         ++ completion_logs (suppress_log a) result in
          if check a && negb (retcode =? 0)%Z then
            Some (trace, Raise (CalledProcessError retcode argv out err))
          else Some (trace, Ok result)
      end
  end.

(** The defaults of the keyword arguments of [run_process];
    [signal.SIGKILL] is 9. *)
Definition default_args (c : command) : run_args :=
  {| cmd := c; stop_event := None; suppress_log := false;
     via_staticx := false; check := true; timeout := None;
     kill_signal := 9%Z; communicate := true; stdin := None |}.

(** Children for the examples: one that never exits and one that has exited
    by the first poll. *)
Definition sleep : command := CmdList ["sleep"; "100"].

Definition sleeping_child : child :=
  {| staticx_dir := None; popen_error := None;
     communicate_at := fun _ => CommExpired; wait_result := WaitForever |}.

Definition exiting_child (out err : option bytes) (retcode : Z) : child :=
  {| staticx_dir := None; popen_error := None;
     communicate_at := fun _ => CommDone out err retcode;
     wait_result := WaitDone retcode |}.

End Supervisor.

(** ** [CalledProcessError.__str__] *)

Module Exceptions.

Definition quote1 : ascii := ascii_of_nat 39.     (* ' *)
Definition quote2 : ascii := ascii_of_nat 34.
Definition backslash : ascii := ascii_of_nat 92.
Definition newline : string := String (ascii_of_nat 10) EmptyString.

Definition hex_digit (n : nat) : ascii :=
  nth n (list_ascii_of_string "0123456789abcdef") "0"%char.

(** [bytes.__repr__]: one byte inside the quotes. *)
Definition repr_byte (quote c : ascii) : string :=
  let n := nat_of_ascii c in
  if (Ascii.eqb c quote || Ascii.eqb c backslash)%bool then
    String backslash (String c EmptyString)
  else if Nat.eqb n 9 then String backslash "t"
  else if Nat.eqb n 10 then String backslash "n"
  else if Nat.eqb n 13 then String backslash "r"
  else if (Nat.ltb n 32 || Nat.leb 127 n)%bool then
    String backslash
      (String "x" (String (hex_digit (n / 16))
                     (String (hex_digit (n mod 16)) EmptyString)))
  else String c EmptyString.

Definition repr_bytes (b : bytes) : string :=
  let has q := existsb (Ascii.eqb q) b in
  let quote := if (has quote1 && negb (has quote2))%bool then quote2 else quote1 in
  String "b" (String quote
    (String.concat "" (map (repr_byte quote) b) ++ String quote EmptyString)).

(** [f"{x}"] for an [Optional[bytes]]. *)
Definition format_bytes (b : option bytes) : string :=
  match b with
  | Some b => repr_bytes b
  | None => "None"
  end.

(** [sub in s] *)
Definition contains (s sub : string) : Prop :=
  exists pre post, s = (pre ++ sub ++ post)%string.

Section Rendering.
(** [repr(signal.Signals(n))], or [None] where the enumeration has no
    member [n] and raises [ValueError]; it depends on the platform. *)
Variable signals_repr : Z -> option string.
(** [str] of the argument vector held in [cmd]. *)
Variable str_of_args : list string -> string.

(** [CalledProcessError.__str__] on the fields of the exception. *)
Definition base_message (returncode : Z) (cmd : list string) : string :=
  if (negb (returncode =? 0)%Z && (returncode <? 0)%Z)%bool then
    match signals_repr (- returncode) with
    | Some sig =>
        "Command '" ++ str_of_args cmd ++ "' died with " ++ sig ++ "."
    | None =>
        "Command '" ++ str_of_args cmd ++ "' died with unknown signal "
          ++ str_of_int (- returncode) ++ "."
    end
  else
    "Command '" ++ str_of_args cmd ++ "' returned non-zero exit status "
      ++ str_of_int returncode ++ ". ".

Definition called_process_error_str (returncode : Z) (cmd : list string)
  (stdout stderr : option bytes) : string :=
  base_message returncode cmd
    ++ newline ++ "stdout: " ++ format_bytes stdout
    ++ newline ++ "stderr: " ++ format_bytes stderr.

(** [str(e)] for the exceptions of this module; [None] for the others,
    whose rendering is not defined here. *)
Definition exn_str (e : exn) : option string :=
  match e with
  | CalledProcessError rc cmd out err =>
      Some (called_process_error_str rc cmd out err)
  | _ => None
  end.
End Rendering.

(** Instances for the examples: a few members of [signal.Signals] on
    Linux, and [str] of a list of strings that need no escaping. *)
Definition some_signals (n : Z) : option string :=
  if (n =? 2)%Z then Some "<Signals.SIGINT: 2>"
  else if (n =? 9)%Z then Some "<Signals.SIGKILL: 9>"
  else if (n =? 15)%Z then Some "<Signals.SIGTERM: 15>"
  else None.

Definition str_of_plain_args (l : list string) : string :=
  "[" ++ String.concat ", " (map (fun x => ("'" ++ x ++ "'")%string) l) ++ "]".

End Exceptions.

(** ** Namespace Executor *)

Module NamespaceExecutor.

(** The namespace operations a call attempts and the callback it runs. *)
Inductive event : Type :=
| EvUnshare (nstype : string) (flag : Z)
| EvSetns (nstype : string) (flag : Z)
| EvCallback.

(** The namespace kind an event is about. *)
Definition event_nstype (e : event) : option string :=
  match e with
  | EvUnshare nstype _ => Some nstype
  | EvSetns nstype _ => Some nstype
  | EvCallback => None
  end.

Definition is_mnt (ns : string) : bool := String.eqb ns "mnt".

(** The kernel as the worker thread meets it.  Every answer may depend on
    the kinds the thread has joined so far ([joined], oldest first): joining
    the mount namespace, for one, changes what [/proc] shows. *)
Record kernel : Type := {
  stat_ino : list string -> string -> result Z;   (* [os.stat(path).st_ino] *)
  unshare : list string -> Z -> Z;                (* [libc.unshare(flag)] *)
  open_ns : list string -> string -> option exn;  (* [open(path, "r")] *)
  setns : list string -> string -> Z -> Z         (* [libc.setns(fd, flag)] *)
}.

Definition self_ns_path (nstype : string) : string :=
  "/proc/self/ns/" ++ nstype.

Definition ns_path (pid : Z) (nstype : string) : string :=
  "/proc/" ++ str_of_int pid ++ "/ns/" ++ nstype.

Definition is_same_ns (k : kernel) (joined : list string) (pid : Z)
  (nstype : string) : result bool :=
  (a <- stat_ino k joined (self_ns_path nstype) ;;
   b <- stat_ino k joined (ns_path pid nstype) ;;
   Ok (a =? b)%Z)%py.

(** The table of [CLONE_NEW*] flags; [KeyError] for any other kind. *)
Definition clone_flag (nstype : string) : result Z :=
  if String.eqb nstype "mnt" then Ok 131072%Z          (* 0x00020000 *)
  else if String.eqb nstype "net" then Ok 1073741824%Z (* 0x40000000 *)
  else if String.eqb nstype "pid" then Ok 536870912%Z  (* 0x20000000 *)
  else if String.eqb nstype "uts" then Ok 67108864%Z   (* 0x04000000 *)
  else Raise (KeyError nstype).

(** The [for] loop of [_switch_and_run]: the events, and the kinds joined
    at the end or the exception that ended the thread. *)
Fixpoint switch (k : kernel) (target_pid : Z) (nstypes joined : list string)
  : list event * result (list string) :=
  match nstypes with
  | [] => ([], Ok joined)
  | nstype :: rest =>
      match is_same_ns k joined target_pid nstype with
      | Raise e => ([], Raise e)
      | Ok true => switch k target_pid rest joined
      | Ok false =>
          match clone_flag nstype with
          | Raise e => ([], Raise e)
          | Ok flag =>
              if negb (unshare k joined flag =? 0)%Z then
                ([EvUnshare nstype flag],
                 Raise (ValueError ("Failed to unshare(" ++ nstype ++ ")")))
              else
                match open_ns k joined (ns_path target_pid nstype) with
                | Some e => ([EvUnshare nstype flag], Raise e)
                | None =>
                    if negb (setns k joined (ns_path target_pid nstype) flag
                               =? 0)%Z then
                      ([EvUnshare nstype flag; EvSetns nstype flag],
                       Raise (ValueError
                                ("Failed to setns(" ++ nstype ++ ") (to pid "
                                   ++ str_of_int target_pid ++ ")")))
                    else
                      let '(tr, r) :=
                        switch k target_pid rest (joined ++ [nstype]) in
                      (EvUnshare nstype flag :: EvSetns nstype flag :: tr, r)
                end
          end
      end
  end.

(** make sure "mnt" is last *)
Definition mnt_key (ns : string) : nat :=
  if is_mnt ns then 1 else 0.

Definition order_nstypes (nstypes : list string) : list string :=
  sorted_by_key mnt_key nstypes.

Section Run.
(** The values a callback returns other than [None]. *)
Context {T : Type}.

(** What is left of a call: the events of the worker thread, the exception
    that ended the thread if one did (the caller does not see it), and the
    value returned to the caller, [None] being Python's [None]. *)
Record ns_run : Type := {
  trace : list event;
  uncaught : option exn;
  ret : option T
}.

(** A callback returns a value, possibly [None], or raises; it runs in the
    namespaces the thread has joined. *)
Definition callback_t : Type := list string -> result (option T).

Definition run_in_ns (k : kernel) (nstypes : list string)
  (callback : callback_t) (target_pid : Z) : ns_run :=
  let nstypes := order_nstypes nstypes in
  match switch k target_pid nstypes [] with
  | (tr, Raise e) => {| trace := tr; uncaught := Some e; ret := None |}
  | (tr, Ok joined) =>
      match callback joined with
      | Ok v => {| trace := tr ++ [EvCallback]; uncaught := None; ret := v |}
      | Raise e =>
          {| trace := tr ++ [EvCallback]; uncaught := Some e; ret := None |}
      end
  end.
End Run.

(** Two kernels for the examples.  In [same_kernel] the thread shares every
    namespace with every process and nothing fails; in [unprivileged_kernel]
    the target's namespaces differ from the thread's and [unshare] is
    refused. *)
Definition same_kernel : kernel :=
  {| stat_ino := fun _ _ => Ok 4026531840%Z;
     unshare := fun _ _ => 0%Z;
     open_ns := fun _ _ => None;
     setns := fun _ _ _ => 0%Z |}.

Definition unprivileged_kernel : kernel :=
  {| stat_ino := fun _ p =>
       if String.prefix "/proc/self/" p then Ok 4026531840%Z
       else Ok 4026532000%Z;
     unshare := fun _ _ => (-1)%Z;
     open_ns := fun _ _ => None;
     setns := fun _ _ _ => (-1)%Z |}.

(** A kernel in which the target is in other namespaces and every join
    succeeds. *)
Definition privileged_kernel : kernel :=
  {| stat_ino := fun _ p =>
       if String.prefix "/proc/self/" p then Ok 4026531840%Z
       else Ok 4026532000%Z;
     unshare := fun _ _ => 0%Z;
     open_ns := fun _ _ => None;
     setns := fun _ _ _ => 0%Z |}.

End NamespaceExecutor.

(** ** System Mutex *)

Module SystemMutex.

Import NamespaceExecutor.

Definition EADDRINUSE : Z := 98.

(** The bound socket; [cloexec] is its [FD_CLOEXEC] flag. *)
Record socket : Type := { cloexec : bool }.

(** [s.bind(GPROFILER_LOCK)] in the network namespace the thread is in:
    the [errno] of the [OSError] it raises, or [None] when it succeeds. *)
Definition bind_oracle : Type := list string -> option Z.

Definition _take_lock (bind_errno : bind_oracle) (joined : list string)
  : result (bool * option socket) :=
  match bind_errno joined with
  | Some errno =>
      if negb (errno =? EADDRINUSE)%Z then Raise (OSError errno)
      else
        (* already taken :/ *)
        Ok (false, None)
  | None =>
      (* don't let child programs we execute inherit it. *)
      Ok (true, Some {| cloexec := true |})
  end.

Definition msg_error : string :=
  "Could not acquire gProfiler's lock due to an error. Are you running gProfiler in privileged mode?".

Definition msg_locked : string :=
  "Could not acquire gProfiler's lock. Is it already running? Try 'sudo netstat -xp | grep gprofiler' to see which process holds the lock.".

(** What [grab_gprofiler_mutex] leaves: its return value, the line it wrote
    to [stderr] and the global [gprofiler_mutex].  In
    [grab_gprofiler_mutex] below the last field is the socket that the call
    assigns to the global, [None] when it assigns nothing;
    [grab_gprofiler_mutex_from] starts from the value the global has and
    gives the value it has afterwards. *)
Record grabbed : Type := {
  acquired : bool;
  printed : option string;
  gprofiler_mutex : option socket
}.

Definition grab_gprofiler_mutex (k : kernel) (bind_errno : bind_oracle)
  : result grabbed :=
  let res :=
    ret (run_in_ns k ["net"]
           (fun joined =>
              match _take_lock bind_errno joined with
              | Ok v => Ok (Some v)
              | Raise e => Raise e
              end) 1%Z) in
  match res with
  | None =>
      (* exception in run_in_ns *)
      Ok {| acquired := false; printed := Some msg_error;
            gprofiler_mutex := None |}
  | Some (true, s) =>
      match s with
      | None => Raise (AssertionError "")
      | Some s =>
          (* hold the reference so lock remains taken *)
          Ok {| acquired := true; printed := None;
                gprofiler_mutex := Some s |}
      end
  | Some (false, _) =>
      Ok {| acquired := false; printed := Some msg_locked;
            gprofiler_mutex := None |}
  end.

(** [grab_gprofiler_mutex] with the global [gprofiler_mutex] as it is when
    the call starts: only a successful call assigns it. *)
Definition grab_gprofiler_mutex_from (global : option socket) (k : kernel)
  (bind_errno : bind_oracle) : result grabbed :=
  let res :=
    ret (run_in_ns k ["net"]
           (fun joined =>
              match _take_lock bind_errno joined with
              | Ok v => Ok (Some v)
              | Raise e => Raise e
              end) 1%Z) in
  match res with
  | None =>
      (* exception in run_in_ns *)
      Ok {| acquired := false; printed := Some msg_error;
            gprofiler_mutex := global |}
  | Some (true, s) =>
      match s with
      | None => Raise (AssertionError "")
      | Some s =>
          (* hold the reference so lock remains taken *)
          Ok {| acquired := true; printed := None;
                gprofiler_mutex := Some s |}
      end
  | Some (false, _) =>
      Ok {| acquired := false; printed := Some msg_locked;
            gprofiler_mutex := global |}
  end.

End SystemMutex.

(** ** Polling a started process *)

Module Polling.

Import OutputLocator.

(** What [poll_process] does to the process. *)
Inductive event : Type :=
| EvKill.

(** [poll_process]: [exited k] is [process.poll() is not None] at the
    [k]-th evaluation.  [None]: still waiting after [fuel] iterations. *)
Definition poll_process (clk : clock) (timeout : Z)
  (stop_event : nat -> bool) (exited : nat -> bool) (fuel : nat)
  : option (list event * result unit) :=
  match wait_event clk timeout stop_event exited fuel with
  | None => None
  | Some (Ok _) => Some ([], Ok tt)
  | Some (Raise StopEventSetException) =>
      Some ([EvKill], Raise StopEventSetException)
  | Some (Raise e) => Some ([], Raise e)
  end.

End Polling.

(** ** Small helpers *)

Module Helpers.

(** [s[n:]] *)
Fixpoint drop (n : nat) (s : string) : string :=
  match n, s with
  | O, _ => s
  | S n', String _ s' => drop n' s'
  | S _, EmptyString => EmptyString
  end.

(** like str.removeprefix of Python 3.9, but this also ensures the prefix
    exists. *)
Definition remove_prefix (s prefix : string) : result string :=
  if String.prefix prefix s then Ok (drop (String.length prefix) s)
  else Raise (AssertionError (s ++ " doesn't start with " ++ prefix)).

(** [limit_frequency]: the frequency to use, and the pair (requested, limit)
    of the warning it logs, if it logs one. *)
Definition limit_frequency (limit : option Z) (requested : Z)
  : Z * option (Z * Z) :=
  match limit with
  | Some l =>
      if (requested >? l)%Z then (l, Some (requested, l))
      else (requested, None)
  | None => (requested, None)
  end.

(** [string.ascii_letters] *)
Definition ascii_letters : list ascii :=
  list_ascii_of_string
    "abcdefghijklmnopqrstuvwxyzABCDEFGHIJKLMNOPQRSTUVWXYZ".

(** [random.choice(seq)]: the element at an index drawn below [len(seq)];
    the draw is the source's number reduced modulo the length. *)
Definition choice (draw : nat) (seq : list ascii) : ascii :=
  nth (draw mod List.length seq) seq "a"%char.

(** [random_prefix]; [draws i] is the [i]-th number of the random source. *)
Definition random_prefix (draws : nat -> nat) : string :=
  string_of_list_ascii
    (map (fun i => choice (draws i) ascii_letters) (seq 0 16)).

(** The package and the resource name that [resource_path] looks up:
    [*relative_directory, basename = relative_path.split("/")]. *)
Definition resource_location (relative_path : string)
  : list string * string :=
  let fields := split sep relative_path in
  (removelast fields, last fields "").

Definition resource_package (relative_directory : list string) : string :=
  String.concat "." (["gprofiler"; "resources"] ++ relative_directory).

(** [resource_path]; [lookup package basename] is the path that
    [importlib_resources.path] yields, [None] when it raises
    [ImportError]. *)
Definition resource_path (lookup : string -> string -> option string)
  (relative_path : string) : result string :=
  let '(relative_directory, basename) := resource_location relative_path in
  match lookup (resource_package relative_directory) basename with
  | Some path => Ok path
  | None => Raise (OtherException "Exception")
  end.

End Helpers.

(** ** The cache of installed programs *)

Module ProgramCache.

(** The outcome of [assert_program_installed]. *)
Inductive outcome : Type :=
| Installed
| ProgramMissingException (program : string).

(** [assert_program_installed] on the list [_INSTALLED_PROGRAMS_CACHE];
    [which p] is [shutil.which(p) is not None].  The second component tells
    whether [shutil.which] was consulted. *)
Definition assert_program_installed (which : string -> bool)
  (program : string) (cache : list string)
  : list string * bool * outcome :=
  if existsb (String.eqb program) cache then (cache, false, Installed)
  else if which program then (cache ++ [program], true, Installed)
  else (cache, true, ProgramMissingException program).

(** The cache after a sequence of calls, each with the program it checks
    and with [shutil.which] as it answers at the time of the call. *)
Fixpoint assert_programs (calls : list ((string -> bool) * string))
  (cache : list string) : list string :=
  match calls with
  | [] => cache
  | (which, p) :: rest =>
      assert_programs rest
        (fst (fst (assert_program_installed which p cache)))
  end.

End ProgramCache.

(** ** Shapes of the traces of the Namespace Executor *)

Module NamespaceTraces.

Import NamespaceExecutor.

(** The shape of the events of the switching loop: every join is an
    [unshare] followed at once by the [setns] of the same kind with the
    same flag, the flag being the one of the table; only a last [unshare],
    when it or what follows it failed, may stand alone. *)
Inductive joins : list event -> Prop :=
| joins_nil : joins []
| joins_failed (ns : string) (flag : Z) :
    clone_flag ns = Ok flag ->
    joins [EvUnshare ns flag]
| joins_cons (ns : string) (flag : Z) (tr : list event) :
    clone_flag ns = Ok flag ->
    joins tr ->
    joins (EvUnshare ns flag :: EvSetns ns flag :: tr).

(** The kinds that a trace has joined, oldest first. *)
Definition setns_kinds (tr : list event) : list string :=
  flat_map (fun e => match e with
                     | EvSetns ns _ => [ns]
                     | _ => []
                     end) tr.

End NamespaceTraces.

(** ** The walk of the Path Resolver, as the specification words it *)

Module PathWalk.

Import PathResolver.

(** Follows the specification (4.5, Path Resolver), not the code, and is
    compared with [resolve_proc_root_links] below: walk the path one
    component at a time, joining each component under the path resolved so
    far; whenever the path so joined is itself a symbolic link, read its
    target; if the target is absolute, re-root it under the base; if it is
    relative, join it against the current directory; the path reached when
    no component is left is the result.  [walk fs base cur comps r]: from
    the current directory [cur], the components [comps] lead to [r]. *)
Inductive walk (fs : filesystem) (base : string)
  : string -> list string -> string -> Prop :=
| walk_end (cur : string) :
    walk fs base cur [] cur
| walk_plain (cur part : string) (rest : list string) (r : string) :
    symlink fs (join cur part) = None ->
    walk fs base (join cur part) rest r ->
    walk fs base cur (part :: rest) r
| walk_absolute_link (cur part link : string) (rest : list string)
    (r : string) :
    symlink fs (join cur part) = Some link ->
    isabs link = true ->
    walk fs base (base ++ link)%string rest r ->
    walk fs base cur (part :: rest) r
| walk_relative_link (cur part link : string) (rest : list string)
    (r : string) :
    symlink fs (join cur part) = Some link ->
    isabs link = false ->
    walk fs base (join cur link) rest r ->
    walk fs base cur (part :: rest) r.

End PathWalk.

(** * Properties *)

(** ** Strings *)

Lemma string_app_assoc (a b c : string) :
  ((a ++ b) ++ c = a ++ (b ++ c))%string.
Proof. induction a as [|x a IH]; simpl; [reflexivity | now rewrite IH]. Qed.

Lemma string_app_nil (a : string) : (a ++ "")%string = a.
Proof. induction a as [|x a IH]; simpl; [reflexivity | now rewrite IH]. Qed.

Lemma prefix_iff_app (a b : string) :
  String.prefix a b = true <-> exists c, b = (a ++ c)%string.
Proof.
  revert b. induction a as [|x a IH]; intros b.
  - split; [intros _; now exists b | intros _; now destruct b].
  - destruct b as [|y b]; simpl.
    + split; [discriminate | intros [c Hc]; discriminate].
    + destruct (ascii_dec x y) as [->|Hxy].
      * rewrite IH. split; intros [c Hc]; exists c; congruence.
      * split; [discriminate | intros [c Hc]; congruence].
Qed.

Lemma prefix_app (a c : string) : String.prefix a (a ++ c) = true.
Proof. apply prefix_iff_app. now exists c. Qed.

Lemma prefix_trans (a b c : string) :
  String.prefix a b = true -> String.prefix b c = true ->
  String.prefix a c = true.
Proof.
  rewrite !prefix_iff_app. intros [x ->] [y ->].
  exists (x ++ y)%string. now rewrite string_app_assoc.
Qed.

Lemma split_no_leading_sep (c : ascii) (s : string) :
  Forall (fun w => startswith_char w c = false) (split c s).
Proof.
  induction s as [|x s IH]; simpl.
  - repeat constructor.
  - destruct (Ascii.eqb x c) eqn:E.
    + constructor; [reflexivity | exact IH].
    + destruct (split c s) as [|w ws].
      * constructor; [simpl; exact E | constructor].
      * inversion IH; subst. constructor; [simpl; exact E | assumption].
Qed.

(** ** Path Resolver *)

Section PathResolverFacts.
Import PathResolver.
Variable fs : filesystem.

Lemma join_relative_prefix (a b : string) :
  startswith_char b sep = false -> String.prefix a (join a b) = true.
Proof.
  intros H. unfold join. rewrite H.
  destruct (String.eqb a "" || endswith_char a sep)%bool; apply prefix_app.
Qed.

Lemma resolve_step_prefix (proc_root path part : string) :
  String.prefix proc_root path = true ->
  startswith_char part sep = false ->
  String.prefix proc_root (resolve_step fs proc_root path part) = true.
Proof.
  intros Hp Hpart. unfold resolve_step.
  destruct (symlink fs (join path part)) as [link|].
  - unfold isabs. destruct (startswith_char link sep) eqn:Habs.
    + apply prefix_app.
    + eapply prefix_trans; [exact Hp | now apply join_relative_prefix].
  - eapply prefix_trans; [exact Hp | now apply join_relative_prefix].
Qed.

Lemma resolve_loop_prefix (proc_root : string) (ps : list string) :
  forall path,
    String.prefix proc_root path = true ->
    Forall (fun w => startswith_char w sep = false) ps ->
    String.prefix proc_root (resolve_loop fs proc_root path ps) = true.
Proof.
  induction ps as [|part rest IH]; intros path Hp Hall; simpl.
  - exact Hp.
  - inversion Hall; subst. apply IH; [|assumption].
    now apply resolve_step_prefix.
Qed.

(** The components after the root never start with a slash. *)
Lemma parts_tail_relative (p p0 : string) (rest : list string) :
  parts p = p0 :: rest ->
  Forall (fun w => startswith_char w sep = false) rest.
Proof.
  unfold parts. destruct (String.eqb p ""); [discriminate|].
  destruct (splitroot p) as [root rel].
  pose proof (split_no_leading_sep sep rel) as Hs.
  assert (Hf : Forall (fun w => startswith_char w sep = false)
                 (filter keep_component (split sep rel))).
  { rewrite Forall_forall in *. intros w Hw.
    apply filter_In in Hw. now apply Hs. }
  destruct (String.eqb root "").
  - intros E. rewrite E in Hf. now inversion Hf.
  - intros E. inversion E; subst. exact Hf.
Qed.

(** A path with one leading slash has the root ["/"]. *)
Lemma parts_single_slash (rel : string) :
  startswith_char rel sep = false ->
  parts (String sep rel)
  = "/" :: filter keep_component (split sep rel).
Proof.
  intros H.
  assert (Hl : lstrip sep (String sep rel) = rel).
  { simpl. destruct rel as [|c rel]; [reflexivity|].
    simpl in *. now rewrite H. }
  unfold parts, splitroot.
  change (String sep rel =? "")%string with false.
  change (startswith_char (String sep rel) sep) with true.
  cbv iota. rewrite Hl.
  replace (String.length (String sep rel) - String.length rel) with 1
    by (change (String.length (String sep rel))
          with (S (String.length rel)); lia).
  reflexivity.
Qed.
End PathResolverFacts.

Module PathResolverSpec.
Import PathResolver.

Example resolve_example :
  resolve_proc_root_links (one_link_fs "/proc/7/root") "/proc/7/root"
    "/abs/file"
  = Ok "/proc/7/root/etc/target/file".
Proof. reflexivity. Qed.

(** A relative link is joined against the directory that holds it. *)
Example resolve_relative_example :
  resolve_proc_root_links
    {| symlink := fun p =>
         if String.eqb p "/proc/7/root/usr/lib" then Some "lib64" else None |}
    "/proc/7/root" "/usr/lib/libc.so"
  = Ok "/proc/7/root/usr/lib64/libc.so".
Proof. reflexivity. Qed.

(** A link that is the last component is replaced as well. *)
Example resolve_last_component_link :
  resolve_proc_root_links (one_link_fs "/proc/7/root") "/proc/7/root" "/abs"
  = Ok "/proc/7/root/etc/target".
Proof. reflexivity. Qed.

(** Paths that are not absolute, or whose root is ["//"], are refused. *)
Example resolve_refuses_relative :
  resolve_proc_root_links (one_link_fs "/r") "/r" "abs/file"
  = Raise (AssertionError "expected ns_path to be absolute")
  /\ resolve_proc_root_links (one_link_fs "/r") "/r" "//abs/file"
     = Raise (AssertionError "expected ns_path to be absolute")
  /\ resolve_proc_root_links (one_link_fs "/r") "/r" "" = Raise IndexError.
Proof. repeat split. Qed.
End PathResolverSpec.

(** The loop of the resolver over two lists in a row. *)
Lemma resolve_loop_app (fs : PathResolver.filesystem) (B : string)
  (before after : list string) :
  forall cur,
    PathResolver.resolve_loop fs B cur (before ++ after)
    = PathResolver.resolve_loop fs B
        (PathResolver.resolve_loop fs B cur before) after.
Proof.
  induction before as [|part before IH]; intros cur; [reflexivity|].
  simpl. apply IH.
Qed.

(** The loop of the code computes the walk of the specification, and
    nothing else is a walk. *)
Lemma walk_iff_resolve_loop (fs : PathResolver.filesystem) (B : string)
  (comps : list string) :
  forall cur r,
    PathWalk.walk fs B cur comps r
    <-> r = PathResolver.resolve_loop fs B cur comps.
Proof.
  induction comps as [|part rest IH]; intros cur r.
  - split.
    + intros H. now inversion H.
    + intros ->. constructor.
  - cbn [PathResolver.resolve_loop]. unfold PathResolver.resolve_step.
    split.
    + intros H. inversion H as [|? ? ? ? Hn Hw|? ? link ? ? Hl Ha Hw
                                |? ? link ? ? Hl Ha Hw]; subst.
      * rewrite Hn. now apply IH.
      * rewrite Hl, Ha. now apply IH.
      * rewrite Hl, Ha. now apply IH.
    + intros ->.
      destruct (PathResolver.symlink fs (PathResolver.join cur part))
        as [link|] eqn:Hl.
      * destruct (PathResolver.isabs link) eqn:Ha.
        -- eapply PathWalk.walk_absolute_link; [exact Hl | exact Ha|].
           now apply IH.
        -- eapply PathWalk.walk_relative_link; [exact Hl | exact Ha|].
           now apply IH.
      * apply PathWalk.walk_plain; [exact Hl|]. now apply IH.
Qed.

(** C6: for every absolute input path, the resolver returns exactly the
    path that the walk of the specification leads to: at every component,
    the last one included, a path resolved so far that is a symbolic link
    with an absolute target is replaced by the target re-rooted under the
    base [B], and one with a relative target by the target joined against
    the current directory; with [/abs -> /etc/target] under [B], resolving
    [/abs/file] gives [B/etc/target/file]. *)
Theorem resolve_reroots_symlinks
  (fs : PathResolver.filesystem) (B ns_path : string)
  (comps : list string) :
  PathResolver.parts ns_path = "/" :: comps ->
  (exists r, PathResolver.resolve_proc_root_links fs B ns_path = Ok r)
  /\ (forall r,
        PathResolver.resolve_proc_root_links fs B ns_path = Ok r
        <-> PathWalk.walk fs B B comps r)
  /\ (forall before part after cur link r,
        comps = before ++ part :: after ->
        PathWalk.walk fs B B before cur ->
        PathResolver.symlink fs (PathResolver.join cur part) = Some link ->
        PathResolver.resolve_proc_root_links fs B ns_path = Ok r ->
        PathWalk.walk fs B
          (if PathResolver.isabs link then (B ++ link)%string
           else PathResolver.join cur link) after r)
  /\ (PathResolver.symlink fs (PathResolver.join B "abs") = Some "/etc/target" ->
      PathResolver.symlink fs (B ++ "/etc/target/file") = None ->
      PathResolver.resolve_proc_root_links fs B "/abs/file"
      = Ok (B ++ "/etc/target/file")%string).
Proof.
  intros Hparts.
  assert (Hres : PathResolver.resolve_proc_root_links fs B ns_path
                 = Ok (PathResolver.resolve_loop fs B B comps)).
  { unfold PathResolver.resolve_proc_root_links. now rewrite Hparts. }
  split; [eexists; exact Hres|]. split; [|split].
  - intros r. rewrite Hres, walk_iff_resolve_loop. split.
    + intros H. now inversion H.
    + now intros ->.
  - intros before part after cur link r -> Hcur Hlink Hr.
    rewrite Hres in Hr. inversion Hr as [Hr']. clear Hr.
    apply walk_iff_resolve_loop in Hcur. subst cur.
    apply walk_iff_resolve_loop.
    rewrite resolve_loop_app. cbn [PathResolver.resolve_loop].
    unfold PathResolver.resolve_step at 1. now rewrite Hlink.
  - intros Habs Hfile.
    change (PathResolver.resolve_proc_root_links fs B "/abs/file")
      with (Ok (PathResolver.resolve_step fs B
                  (PathResolver.resolve_step fs B B "abs") "file")).
    f_equal.
    assert (H1 : PathResolver.resolve_step fs B B "abs"
                 = (B ++ "/etc/target")%string).
    { unfold PathResolver.resolve_step. now rewrite Habs. }
    rewrite H1. unfold PathResolver.resolve_step.
    assert (Hj : PathResolver.join (B ++ "/etc/target") "file"
                 = (B ++ "/etc/target/file")%string).
    { unfold PathResolver.join.
      change (startswith_char "file" sep) with false. cbv iota.
      assert (He : forall s, endswith_char (s ++ "/etc/target") sep = false).
      { induction s as [|c s IH]; [reflexivity|].
        simpl. destruct (s ++ "/etc/target")%string eqn:E; [|exact IH].
        destruct s; discriminate. }
      assert (Hn : ((B ++ "/etc/target") =? "")%string = false).
      { apply String.eqb_neq. destruct B; discriminate. }
      rewrite He, Hn. simpl. now rewrite string_app_assoc. }
    rewrite Hj, Hfile. reflexivity.
Qed.

Lemma resolve_reroots_symlinks_witness :
  PathWalk.walk (PathResolver.one_link_fs "/proc/7/root") "/proc/7/root"
    "/proc/7/root" ["abs"; "file"] "/proc/7/root/etc/target/file"
  /\ PathWalk.walk (PathResolver.one_link_fs "/proc/7/root") "/proc/7/root"
       "/proc/7/root/etc/target" ["file"] "/proc/7/root/etc/target/file"
  /\ PathResolver.resolve_proc_root_links
       (PathResolver.one_link_fs "/proc/7/root") "/proc/7/root" "/abs/file"
     = Ok "/proc/7/root/etc/target/file".
Proof.
  destruct (resolve_reroots_symlinks
              (PathResolver.one_link_fs "/proc/7/root")
              "/proc/7/root" "/abs/file" ["abs"; "file"] eq_refl)
    as (_ & Hwalk & Hat & Hex).
  split; [|split].
  - apply Hwalk. reflexivity.
  - apply (Hat [] "abs" ["file"] "/proc/7/root" "/etc/target"
             "/proc/7/root/etc/target/file" eq_refl).
    + constructor.
    + reflexivity.
    + reflexivity.
  - apply Hex; reflexivity.
Defined.

(** C10: whatever the symbolic links are, a path that the resolver returns
    starts with the base directory string; and the resolver returns one for
    every input whose root component is ["/"]. *)
Theorem resolve_stays_under_root
  (fs : PathResolver.filesystem) (proc_root ns_path : string) :
  match PathResolver.resolve_proc_root_links fs proc_root ns_path with
  | Ok r => String.prefix proc_root r = true
  | Raise _ => hd_error (PathResolver.parts ns_path) <> Some "/"
  end.
Proof.
  unfold PathResolver.resolve_proc_root_links.
  destruct (PathResolver.parts ns_path) as [|p0 rest] eqn:E.
  - discriminate.
  - destruct (String.eqb_spec p0 "/") as [->|Hne].
    + apply resolve_loop_prefix.
      * apply prefix_iff_app. exists "". now rewrite string_app_nil.
      * now apply parts_tail_relative with (p := ns_path) (p0 := "/").
    + simpl. congruence.
Qed.


(** ** Sorting *)

Section SortingFacts.
Context {A : Type} (le : A -> A -> bool).

Lemma insert_sorted_skip (x : A) (a b : list A) :
  Forall (fun y => le x y = false) a ->
  insert_sorted le x (a ++ b) = a ++ insert_sorted le x b.
Proof.
  induction 1 as [|y a Hy _ IH]; simpl; [reflexivity|].
  now rewrite Hy, IH.
Qed.

Lemma insert_sorted_front (x : A) (l : list A) :
  Forall (fun y => le x y = true) l -> insert_sorted le x l = x :: l.
Proof. destruct 1 as [|y l Hy _]; simpl; [reflexivity | now rewrite Hy]. Qed.

Lemma insert_sorted_perm (x : A) (l : list A) :
  Permutation (x :: l) (insert_sorted le x l).
Proof.
  induction l as [|y l IH]; simpl; [reflexivity|].
  destruct (le x y); [reflexivity|].
  rewrite perm_swap. now constructor.
Qed.

Lemma py_sort_perm (l : list A) : Permutation l (py_sort le l).
Proof.
  induction l as [|x l IH]; simpl; [constructor|].
  rewrite <- insert_sorted_perm. now constructor.
Qed.
End SortingFacts.

(** A sort on a key that takes two values is a stable partition. *)
Lemma sorted_by_key_partition {A : Type} (key : A -> nat) (l : list A) :
  (forall x, key x <= 1) ->
  sorted_by_key key l
  = filter (fun x => Nat.eqb (key x) 0) l
      ++ filter (fun x => negb (Nat.eqb (key x) 0)) l.
Proof.
  intros Hk. unfold sorted_by_key.
  induction l as [|x l IH]; [reflexivity|].
  cbn [py_sort fold_right filter]. fold (py_sort (fun a b => Nat.leb (key a) (key b)) l).
  rewrite IH. destruct (Nat.eqb_spec (key x) 0) as [E|E]; cbn [negb].
  - apply insert_sorted_front. apply Forall_forall. intros y _.
    rewrite E. reflexivity.
  - rewrite insert_sorted_skip.
    + f_equal. apply insert_sorted_front. apply Forall_forall.
      intros y Hy. apply filter_In in Hy as [_ Hy].
      apply Nat.leb_le. specialize (Hk x).
      destruct (Nat.eqb_spec (key y) 0); [discriminate | lia].
    + apply Forall_forall. intros y Hy. apply filter_In in Hy as [_ Hy].
      apply Nat.eqb_eq in Hy. rewrite Hy. apply Nat.leb_gt. lia.
Qed.

(** ** Namespace Executor *)

Section NamespaceFacts.
Import NamespaceExecutor.
Variable k : kernel.
Variable target_pid : Z.

Lemma order_nstypes_partition (nstypes : list string) :
  order_nstypes nstypes
  = filter (fun ns => negb (is_mnt ns)) nstypes ++ filter is_mnt nstypes.
Proof.
  unfold order_nstypes. rewrite sorted_by_key_partition.
  - f_equal; apply filter_ext; intros ns; unfold mnt_key;
      now destruct (is_mnt ns).
  - intros ns. unfold mnt_key. destruct (is_mnt ns); lia.
Qed.

Lemma order_nstypes_perm (nstypes : list string) :
  Permutation nstypes (order_nstypes nstypes).
Proof. apply py_sort_perm. Qed.

(** The loop over a concatenation runs the first list, then the second. *)
Lemma switch_app (a b joined : list string) :
  switch k target_pid (a ++ b) joined
  = match switch k target_pid a joined with
    | (tr, Raise e) => (tr, Raise e)
    | (tr, Ok joined') =>
        let '(tr', r) := switch k target_pid b joined' in (tr ++ tr', r)
    end.
Proof.
  revert joined. induction a as [|ns a IH]; intros joined; simpl.
  - now destruct (switch k target_pid b joined).
  - destruct (is_same_ns k joined target_pid ns) as [[|]|e]; try reflexivity.
    + apply IH.
    + destruct (clone_flag ns) as [flag|e]; try reflexivity.
      destruct (negb (unshare k joined flag =? 0)%Z); try reflexivity.
      destruct (open_ns k joined (ns_path target_pid ns)); try reflexivity.
      destruct (negb (setns k joined (ns_path target_pid ns) flag =? 0)%Z);
        try reflexivity.
      rewrite IH.
      destruct (switch k target_pid a (joined ++ [ns])) as [tr [j|e]];
        [|reflexivity].
      now destruct (switch k target_pid b j).
Qed.

(** Every event of the loop is about one of the kinds it was given. *)
Lemma switch_kinds (P : string -> Prop) (nstypes : list string) :
  Forall P nstypes ->
  forall joined,
    Forall (fun e => exists ns, event_nstype e = Some ns /\ P ns)
      (fst (switch k target_pid nstypes joined)).
Proof.
  induction 1 as [|ns rest Hns _ IH]; intros joined; simpl.
  - constructor.
  - assert (Hu : forall flag, exists ns', event_nstype (EvUnshare ns flag)
                                          = Some ns' /\ P ns')
      by (intros; now exists ns).
    assert (Hs : forall flag, exists ns', event_nstype (EvSetns ns flag)
                                          = Some ns' /\ P ns')
      by (intros; now exists ns).
    destruct (is_same_ns k joined target_pid ns) as [[|]|e];
      [apply IH | | constructor].
    destruct (clone_flag ns) as [flag|e]; [|constructor].
    destruct (negb (unshare k joined flag =? 0)%Z); [repeat constructor; auto|].
    destruct (open_ns k joined (ns_path target_pid ns));
      [repeat constructor; auto|].
    destruct (negb (setns k joined (ns_path target_pid ns) flag =? 0)%Z);
      [repeat constructor; auto|].
    specialize (IH (joined ++ [ns])).
    destruct (switch k target_pid rest (joined ++ [ns])) as [tr r].
    simpl in *. repeat constructor; auto.
Qed.

(** Kinds the thread is already in are passed over. *)
Lemma switch_all_same (nstypes joined : list string) :
  (forall ns, In ns nstypes -> is_same_ns k joined target_pid ns = Ok true) ->
  switch k target_pid nstypes joined = ([], Ok joined).
Proof.
  induction nstypes as [|ns rest IH]; intros H; simpl; [reflexivity|].
  rewrite (H ns (or_introl eq_refl)). apply IH.
  intros ns' Hin. apply H. now right.
Qed.
End NamespaceFacts.


Lemma filter_filter_same {A : Type} (f : A -> bool) (l : list A) :
  filter f (filter f l) = filter f l.
Proof.
  induction l as [|x l IH]; simpl; [reflexivity|].
  destruct (f x) eqn:E; simpl; [rewrite E; now f_equal | exact IH].
Qed.

Lemma filter_filter_neg {A : Type} (f : A -> bool) (l : list A) :
  filter (fun x => negb (f x)) (filter f l) = [].
Proof.
  induction l as [|x l IH]; simpl; [reflexivity|].
  destruct (f x) eqn:E; simpl; [now rewrite E | exact IH].
Qed.

(** C8: the kinds are reordered into the kinds other than ["mnt"], in their
    original order, followed by the ["mnt"] entries; the loop attempts its
    joins in that order, so that every operation on the mount namespace
    comes after every operation on another kind. *)
Theorem mnt_is_joined_last (nstypes : list string) :
  let ordered := NamespaceExecutor.order_nstypes nstypes in
  let other := fun ns => negb (NamespaceExecutor.is_mnt ns) in
  ordered = filter other nstypes ++ filter NamespaceExecutor.is_mnt nstypes
  /\ Permutation nstypes ordered
  /\ filter other ordered = filter other nstypes
  /\ forall (T : Type) (k : NamespaceExecutor.kernel)
        (callback : @NamespaceExecutor.callback_t T) (target_pid : Z),
      exists tr1 tr2 tail,
        NamespaceExecutor.trace
          (NamespaceExecutor.run_in_ns k nstypes callback target_pid)
        = tr1 ++ tr2 ++ tail
        /\ Forall (fun e => exists ns,
                      NamespaceExecutor.event_nstype e = Some ns
                      /\ NamespaceExecutor.is_mnt ns = false) tr1
        /\ Forall (fun e => NamespaceExecutor.event_nstype e = Some "mnt") tr2
        /\ (tail = [] \/ tail = [NamespaceExecutor.EvCallback]).
Proof.
  intros ordered other. subst ordered.
  pose proof (order_nstypes_partition nstypes) as Hp. fold other in Hp.
  split; [exact Hp|]. split; [apply order_nstypes_perm|]. split.
  - rewrite Hp, filter_app. subst other.
    rewrite filter_filter_same, filter_filter_neg. apply app_nil_r.
  - intros T k callback target_pid.
    unfold NamespaceExecutor.run_in_ns. rewrite Hp, switch_app.
    assert (H1 : forall joined,
               Forall (fun e => exists ns,
                         NamespaceExecutor.event_nstype e = Some ns
                         /\ NamespaceExecutor.is_mnt ns = false)
                 (fst (NamespaceExecutor.switch k target_pid
                         (filter other nstypes) joined))).
    { apply switch_kinds. apply Forall_forall. intros ns Hin.
      apply filter_In in Hin as [_ Hin]. subst other. simpl in Hin.
      now destruct (NamespaceExecutor.is_mnt ns). }
    assert (H2 : forall joined,
               Forall (fun e => NamespaceExecutor.event_nstype e = Some "mnt")
                 (fst (NamespaceExecutor.switch k target_pid
                         (filter NamespaceExecutor.is_mnt nstypes) joined))).
    { intros joined.
      eapply Forall_impl;
        [|apply (switch_kinds k target_pid (fun ns => ns = "mnt"))].
      - intros e [ns [He ->]]. exact He.
      - apply Forall_forall. intros ns Hin.
        apply filter_In in Hin as [_ Hin]. now apply String.eqb_eq. }
    specialize (H1 []).
    destruct (NamespaceExecutor.switch k target_pid (filter other nstypes) [])
      as [tr1 [j|e]]; simpl in H1.
    + specialize (H2 j).
      destruct (NamespaceExecutor.switch k target_pid
                  (filter NamespaceExecutor.is_mnt nstypes) j)
        as [tr2 [j'|e]]; simpl in H2.
      * destruct (callback j') as [v|e]; simpl;
          exists tr1, tr2, [NamespaceExecutor.EvCallback];
          rewrite <- app_assoc; auto.
      * simpl. exists tr1, tr2, []. rewrite app_nil_r. auto.
    + simpl. exists tr1, [], []. rewrite app_nil_r. auto.
Qed.

(** C9: when the thread is already in the target's namespace for every
    requested kind, no [unshare] and no [setns] is attempted, the callback
    runs once, and what it returns is returned to the caller. *)
Theorem run_in_ns_already_joined (T : Type) (k : NamespaceExecutor.kernel)
  (nstypes : list string) (callback : @NamespaceExecutor.callback_t T)
  (target_pid : Z) (v : option T) :
  (forall ns, In ns nstypes ->
              NamespaceExecutor.is_same_ns k [] target_pid ns = Ok true) ->
  callback [] = Ok v ->
  NamespaceExecutor.run_in_ns k nstypes callback target_pid
  = {| NamespaceExecutor.trace := [NamespaceExecutor.EvCallback];
       NamespaceExecutor.uncaught := None;
       NamespaceExecutor.ret := v |}.
Proof.
  intros Hsame Hcb. unfold NamespaceExecutor.run_in_ns.
  rewrite switch_all_same.
  - now rewrite Hcb.
  - intros ns Hin. apply Hsame.
    eapply Permutation_in; [|exact Hin].
    apply Permutation_sym, order_nstypes_perm.
Qed.

Lemma run_in_ns_already_joined_witness :
  NamespaceExecutor.run_in_ns NamespaceExecutor.same_kernel
    ["mnt"; "net"; "pid"] (fun _ => Ok (Some 42%Z)) 1%Z
  = {| NamespaceExecutor.trace := [NamespaceExecutor.EvCallback];
       NamespaceExecutor.uncaught := None;
       NamespaceExecutor.ret := Some 42%Z |}.
Proof.
  apply (run_in_ns_already_joined Z NamespaceExecutor.same_kernel
           ["mnt"; "net"; "pid"] (fun _ => Ok (Some 42%Z)) 1%Z (Some 42%Z)).
  - intros ns _. reflexivity.
  - reflexivity.
Defined.

Module NamespaceExamples.
Import NamespaceExecutor.

Example order_example :
  order_nstypes ["mnt"; "net"; "pid"; "mnt"; "uts"]
  = ["net"; "pid"; "uts"; "mnt"; "mnt"].
Proof. reflexivity. Qed.

Example joins_example :
  run_in_ns privileged_kernel ["mnt"; "net"] (fun _ => Ok (Some 7%Z)) 1%Z
  = {| trace := [EvUnshare "net" 1073741824; EvSetns "net" 1073741824;
                 EvUnshare "mnt" 131072; EvSetns "mnt" 131072; EvCallback];
       uncaught := None;
       ret := Some 7%Z |}.
Proof. reflexivity. Qed.

(** An unknown kind ends the thread with a [KeyError]. *)
Example unknown_kind_example :
  run_in_ns privileged_kernel ["ipc"] (fun _ => Ok (Some 7%Z)) 1%Z
  = {| trace := []; uncaught := Some (KeyError "ipc"); ret := None |}.
Proof. reflexivity. Qed.
End NamespaceExamples.

(** The loop itself never runs the callback. *)
Lemma switch_no_callback (k : NamespaceExecutor.kernel) (target_pid : Z)
  (nstypes joined : list string) :
  ~ In NamespaceExecutor.EvCallback
      (fst (NamespaceExecutor.switch k target_pid nstypes joined)).
Proof.
  intros Hin.
  pose proof (switch_kinds k target_pid (fun _ => True) nstypes) as H.
  specialize (H ltac:(apply Forall_forall; auto) joined).
  rewrite Forall_forall in H. destruct (H _ Hin) as [ns [Hns _]].
  discriminate.
Qed.

(** A failed [unshare] ends the loop at once, after that one attempt. *)
Lemma switch_unshare_fails (k : NamespaceExecutor.kernel) (target_pid : Z)
  (ns : string) (rest joined : list string) (flag : Z) :
  NamespaceExecutor.is_same_ns k joined target_pid ns = Ok false ->
  NamespaceExecutor.clone_flag ns = Ok flag ->
  NamespaceExecutor.unshare k joined flag <> 0%Z ->
  NamespaceExecutor.switch k target_pid (ns :: rest) joined
  = ([NamespaceExecutor.EvUnshare ns flag],
     Raise (ValueError ("Failed to unshare(" ++ ns ++ ")"))).
Proof.
  intros Hs Hf Hu. simpl. rewrite Hs, Hf.
  apply Z.eqb_neq in Hu. now rewrite Hu.
Qed.

(** A failed [setns] ends the loop at once, after that one attempt. *)
Lemma switch_setns_fails (k : NamespaceExecutor.kernel) (target_pid : Z)
  (ns : string) (rest joined : list string) (flag : Z) :
  NamespaceExecutor.is_same_ns k joined target_pid ns = Ok false ->
  NamespaceExecutor.clone_flag ns = Ok flag ->
  NamespaceExecutor.unshare k joined flag = 0%Z ->
  NamespaceExecutor.open_ns k joined
    (NamespaceExecutor.ns_path target_pid ns) = None ->
  NamespaceExecutor.setns k joined
    (NamespaceExecutor.ns_path target_pid ns) flag <> 0%Z ->
  NamespaceExecutor.switch k target_pid (ns :: rest) joined
  = ([NamespaceExecutor.EvUnshare ns flag; NamespaceExecutor.EvSetns ns flag],
     Raise (ValueError ("Failed to setns(" ++ ns ++ ") (to pid "
                          ++ str_of_int target_pid ++ ")"))).
Proof.
  intros Hs Hf Hu Ho Hn. simpl. rewrite Hs, Hf, Hu, Ho.
  apply Z.eqb_neq in Hn. now rewrite Hn.
Qed.

(** C3, as the code has it: when the switching loop ends with an exception
    (a failed [unshare] or [setns] among them), the callback is not run,
    nothing more is attempted, the exception stays in the worker thread and
    the caller is handed [None]; the mutex then reports the failure with its
    own message and returns [False]. *)
Theorem ns_failure_returns_none (T : Type) (k : NamespaceExecutor.kernel)
  (nstypes : list string) (callback : @NamespaceExecutor.callback_t T)
  (target_pid : Z) (tr : list NamespaceExecutor.event) (e : exn)
  (bind_errno : SystemMutex.bind_oracle) :
  NamespaceExecutor.switch k target_pid
    (NamespaceExecutor.order_nstypes nstypes) [] = (tr, Raise e) ->
  NamespaceExecutor.run_in_ns k nstypes callback target_pid
  = {| NamespaceExecutor.trace := tr;
       NamespaceExecutor.uncaught := Some e;
       NamespaceExecutor.ret := None |}
  /\ ~ In NamespaceExecutor.EvCallback tr
  /\ (nstypes = ["net"] -> target_pid = 1%Z ->
      SystemMutex.grab_gprofiler_mutex k bind_errno
      = Ok {| SystemMutex.acquired := false;
              SystemMutex.printed := Some SystemMutex.msg_error;
              SystemMutex.gprofiler_mutex := None |})
  /\ SystemMutex.msg_error <> SystemMutex.msg_locked.
Proof.
  intros H. repeat split.
  - unfold NamespaceExecutor.run_in_ns. now rewrite H.
  - pose proof (switch_no_callback k target_pid
                  (NamespaceExecutor.order_nstypes nstypes) []) as Hn.
    now rewrite H in Hn.
  - intros -> ->. unfold SystemMutex.grab_gprofiler_mutex,
      NamespaceExecutor.run_in_ns. now rewrite H.
  - discriminate.
Qed.

Lemma ns_failure_returns_none_witness :
  NamespaceExecutor.run_in_ns NamespaceExecutor.unprivileged_kernel ["net"]
    (fun _ => Ok (Some 7%Z)) 1%Z
  = {| NamespaceExecutor.trace :=
         [NamespaceExecutor.EvUnshare "net" 1073741824];
       NamespaceExecutor.uncaught :=
         Some (ValueError "Failed to unshare(net)");
       NamespaceExecutor.ret := None |}
  /\ SystemMutex.grab_gprofiler_mutex NamespaceExecutor.unprivileged_kernel
       (fun _ => None)
     = Ok {| SystemMutex.acquired := false;
             SystemMutex.printed := Some SystemMutex.msg_error;
             SystemMutex.gprofiler_mutex := None |}.
Proof.
  destruct (ns_failure_returns_none Z NamespaceExecutor.unprivileged_kernel
              ["net"] (fun _ => Ok (Some 7%Z)) 1%Z
              [NamespaceExecutor.EvUnshare "net" 1073741824]
              (ValueError "Failed to unshare(net)") (fun _ => None)
              eq_refl) as (H1 & _ & H3 & _).
  split; [exact H1 | now apply H3].
Defined.

(** C3, as stated, fails: a call whose [unshare] was refused hands the
    caller the same value as a call that ran a callback returning [None],
    and raises nothing; the mutex returns [False] for a refused switch just
    as it does for a lock that is held. *)
Lemma ns_failure_not_distinguishable :
  let failed :=
    NamespaceExecutor.run_in_ns NamespaceExecutor.unprivileged_kernel ["net"]
      (fun _ => Ok (@None Z)) 1%Z in
  let passed :=
    NamespaceExecutor.run_in_ns NamespaceExecutor.privileged_kernel ["net"]
      (fun _ => Ok (@None Z)) 1%Z in
  NamespaceExecutor.uncaught failed = Some (ValueError "Failed to unshare(net)")
  /\ NamespaceExecutor.uncaught passed = None
  /\ In NamespaceExecutor.EvCallback (NamespaceExecutor.trace passed)
  /\ NamespaceExecutor.ret failed = NamespaceExecutor.ret passed
  /\ (exists g g',
        SystemMutex.grab_gprofiler_mutex NamespaceExecutor.unprivileged_kernel
          (fun _ => None) = Ok g
        /\ SystemMutex.grab_gprofiler_mutex NamespaceExecutor.privileged_kernel
             (fun _ => Some SystemMutex.EADDRINUSE) = Ok g'
        /\ SystemMutex.acquired g = SystemMutex.acquired g').
Proof.
  cbv zeta. repeat split.
  - simpl. auto.
  - eexists. eexists. repeat split.
Qed.

(** ** System Mutex *)

Module MutexExamples.
Import NamespaceExecutor SystemMutex.

Example grab_free :
  grab_gprofiler_mutex privileged_kernel (fun _ => None)
  = Ok {| acquired := true; printed := None;
          gprofiler_mutex := Some {| cloexec := true |} |}.
Proof. reflexivity. Qed.

Example grab_held :
  grab_gprofiler_mutex privileged_kernel (fun _ => Some EADDRINUSE)
  = Ok {| acquired := false; printed := Some msg_locked;
          gprofiler_mutex := None |}.
Proof. reflexivity. Qed.

(** [EACCES] from [bind] ends the worker thread. *)
Example grab_bind_refused :
  _take_lock (fun _ => Some 13%Z) ["net"] = Raise (OSError 13)
  /\ grab_gprofiler_mutex privileged_kernel (fun _ => Some 13%Z)
     = Ok {| acquired := false; printed := Some msg_error;
             gprofiler_mutex := None |}.
Proof. split; reflexivity. Qed.
(** A second call in the process that holds the lock: [bind] meets the
    name held by the first socket, the call returns [False] and the global
    still holds that socket. *)
Example grab_twice :
  grab_gprofiler_mutex_from (Some {| cloexec := true |}) privileged_kernel
    (fun _ => Some EADDRINUSE)
  = Ok {| acquired := false; printed := Some msg_locked;
          gprofiler_mutex := Some {| cloexec := true |} |}.
Proof. reflexivity. Qed.
End MutexExamples.

(** C4: a [bind] that fails with [EADDRINUSE] makes [_take_lock] return the
    unsuccessful pair without raising, and the acquisition then reports the
    lock as held; a [bind] that fails with any other [errno] makes
    [_take_lock] raise that error, and the acquisition does not report
    contention. *)
Theorem take_lock_bind_failure (bind_errno : SystemMutex.bind_oracle)
  (k : NamespaceExecutor.kernel) (tr : list NamespaceExecutor.event)
  (joined : list string) (errno : Z) :
  bind_errno joined = Some errno ->
  NamespaceExecutor.switch k 1%Z ["net"] [] = (tr, Ok joined) ->
  (errno = SystemMutex.EADDRINUSE ->
   SystemMutex._take_lock bind_errno joined = Ok (false, None)
   /\ SystemMutex.grab_gprofiler_mutex k bind_errno
      = Ok {| SystemMutex.acquired := false;
              SystemMutex.printed := Some SystemMutex.msg_locked;
              SystemMutex.gprofiler_mutex := None |})
  /\ (errno <> SystemMutex.EADDRINUSE ->
      SystemMutex._take_lock bind_errno joined = Raise (OSError errno)
      /\ NamespaceExecutor.uncaught
           (NamespaceExecutor.run_in_ns k ["net"]
              (fun j => match SystemMutex._take_lock bind_errno j with
                        | Ok v => Ok (Some v)
                        | Raise e => Raise e
                        end) 1%Z)
         = Some (OSError errno)
      /\ SystemMutex.grab_gprofiler_mutex k bind_errno
         = Ok {| SystemMutex.acquired := false;
                 SystemMutex.printed := Some SystemMutex.msg_error;
                 SystemMutex.gprofiler_mutex := None |}).
Proof.
  intros Hb Hs.
  assert (Ho : NamespaceExecutor.order_nstypes ["net"] = ["net"])
    by reflexivity.
  split.
  - intros ->.
    assert (Ht : SystemMutex._take_lock bind_errno joined = Ok (false, None)).
    { unfold SystemMutex._take_lock. now rewrite Hb. }
    split; [exact Ht|].
    unfold SystemMutex.grab_gprofiler_mutex, NamespaceExecutor.run_in_ns.
    now rewrite Ho, Hs, Ht.
  - intros Hne.
    assert (Ht : SystemMutex._take_lock bind_errno joined
                 = Raise (OSError errno)).
    { unfold SystemMutex._take_lock. rewrite Hb.
      apply Z.eqb_neq in Hne. now rewrite Hne. }
    split; [exact Ht|].
    unfold SystemMutex.grab_gprofiler_mutex, NamespaceExecutor.run_in_ns.
    now rewrite Ho, Hs, Ht.
Qed.

Lemma take_lock_bind_failure_witness :
  SystemMutex._take_lock (fun _ => Some 98%Z) ["net"] = Ok (false, None)
  /\ SystemMutex.grab_gprofiler_mutex NamespaceExecutor.privileged_kernel
       (fun _ => Some 98%Z)
     = Ok {| SystemMutex.acquired := false;
             SystemMutex.printed := Some SystemMutex.msg_locked;
             SystemMutex.gprofiler_mutex := None |}.
Proof.
  apply (take_lock_bind_failure (fun _ => Some 98%Z)
           NamespaceExecutor.privileged_kernel
           [NamespaceExecutor.EvUnshare "net" 1073741824;
            NamespaceExecutor.EvSetns "net" 1073741824]
           ["net"] 98%Z eq_refl eq_refl).
  reflexivity.
Defined.

(** ** Output Locator *)

Section SortedFacts.
Context {A : Type} (le : A -> A -> bool).
Hypothesis le_total : forall x y, le x y = true \/ le y x = true.

Let R (x y : A) : Prop := le x y = true.

Lemma insert_sorted_hd (x y : A) (l : list A) :
  R y x -> HdRel R y l -> HdRel R y (insert_sorted le x l).
Proof.
  intros Hyx Hl. destruct l as [|z l]; simpl.
  - now constructor.
  - destruct (le x z); constructor; [exact Hyx | now inversion Hl].
Qed.

Lemma insert_sorted_sorted (x : A) (l : list A) :
  Sorted R l -> Sorted R (insert_sorted le x l).
Proof.
  induction 1 as [|y l Hs IH Hhd]; simpl.
  - repeat constructor.
  - destruct (le x y) eqn:E.
    + repeat constructor; assumption.
    + constructor; [exact IH|].
      apply insert_sorted_hd; [|exact Hhd].
      destruct (le_total x y) as [H|H]; [congruence | exact H].
Qed.

Lemma py_sort_sorted (l : list A) : Sorted R (py_sort le l).
Proof.
  induction l as [|x l IH]; simpl; [constructor|].
  now apply insert_sorted_sorted.
Qed.
End SortedFacts.

Lemma sort_strings_sorted (l : list string) :
  Sorted (fun a b => String.leb a b = true) (sort_strings l).
Proof. apply py_sort_sorted. exact String.leb_total. Qed.

Lemma sort_strings_perm (l : list string) : Permutation l (sort_strings l).
Proof. apply py_sort_perm. Qed.

(** [l[:-1] + l[-1:]] is [l]. *)
Lemma all_but_last_last_slice {A : Type} (l : list A) :
  OutputLocator.all_but_last l ++ OutputLocator.last_slice l = l.
Proof.
  unfold OutputLocator.all_but_last, OutputLocator.last_slice.
  destruct l as [|x l] using rev_ind; [reflexivity|].
  rewrite rev_app_distr, removelast_last. reflexivity.
Qed.

Lemma last_slice_nonempty {A : Type} (l : list A) (d : A) :
  l <> [] -> OutputLocator.last_slice l = [last l d].
Proof.
  unfold OutputLocator.last_slice.
  destruct l as [|x l] using rev_ind; [congruence|].
  intros _. now rewrite rev_app_distr, last_last.
Qed.

(** With several matches, the last of the sorted matches is returned and
    the others are unlinked. *)
Lemma pick_output_many (output_files : list string) :
  1 < List.length output_files ->
  OutputLocator.pick_output output_files
  = Ok {| OutputLocator.path := last (sort_strings output_files) "";
          OutputLocator.unlinked := removelast (sort_strings output_files) |}.
Proof.
  intros Hlen. unfold OutputLocator.pick_output.
  destruct (Nat.eqb_spec (List.length output_files) 1) as [E|_]; [lia|].
  cbn [negb].
  rewrite (last_slice_nonempty (sort_strings output_files) "").
  - reflexivity.
  - intros Hnil.
    pose proof (Permutation_length (sort_strings_perm output_files)) as Hp.
    rewrite Hnil in Hp. simpl in Hp. lia.
Qed.

(** The wait returns at the first observation at which the condition holds,
    if the stop event and the deadline leave it the time. *)
Lemma wait_event_loop_returns (clk : OutputLocator.clock) (end_time : Z)
  (stop_event condition : nat -> bool) (n : nat) :
  forall j fuel,
    (forall i, j <= i < j + n ->
               condition i = false /\ stop_event i = false
               /\ (OutputLocator.monotonic_at clk i <= end_time)%Z) ->
    condition (j + n) = true ->
    n < fuel ->
    OutputLocator.wait_event_loop clk end_time stop_event condition j fuel
    = Some (Ok (j + n)).
Proof.
  induction n as [|n IH]; intros j fuel Hbefore Hcond Hfuel;
    (destruct fuel as [|fuel]; [lia|]); simpl.
  - rewrite Nat.add_0_r in Hcond. now rewrite Hcond, Nat.add_0_r.
  - destruct (Hbefore j ltac:(lia)) as (Hc & Hs & Ht).
    rewrite Hc, Hs.
    replace (OutputLocator.monotonic_at clk j >? end_time)%Z with false
      by (symmetry; rewrite Z.gtb_ltb; now apply Z.ltb_ge).
    replace (j + S n) with (S j + n) in * by lia.
    apply IH; [|assumption|lia].
    intros i Hi. apply Hbefore. lia.
Qed.

(** C5: when the wait has succeeded and the re-listing finds more than one
    match, the locator returns the last of the matches in lexicographic
    order and unlinks all the others, in that order; it does not fail. *)
Theorem locator_keeps_last_match (dir : OutputLocator.directory)
  (clk : OutputLocator.clock) (prefix : string) (timeout : Z)
  (stop_event : nat -> bool) (fuel k : nat) :
  let matches_at := fun i =>
    OutputLocator.glob dir i (prefix ++ "*")%string in
  OutputLocator.wait_event clk timeout stop_event
    (fun i => Nat.ltb 0 (List.length (matches_at i))) fuel = Some (Ok k) ->
  1 < List.length (matches_at (S k)) ->
  let sorted := sort_strings (matches_at (S k)) in
  OutputLocator.wait_for_file_by_prefix dir clk prefix timeout stop_event fuel
  = Some (Ok {| OutputLocator.path := last sorted "";
                OutputLocator.unlinked := removelast sorted |})
  /\ sorted = removelast sorted ++ [last sorted ""]
  /\ Sorted (fun a b => String.leb a b = true) sorted
  /\ Permutation (matches_at (S k)) sorted.
Proof.
  intros matches_at Hwait Hlen sorted. repeat split.
  - unfold OutputLocator.wait_for_file_by_prefix.
    fold (matches_at (S k)). unfold matches_at in Hwait. rewrite Hwait.
    fold (matches_at (S k)). now rewrite pick_output_many.
  - apply app_removelast_last. intros Hnil.
    pose proof (Permutation_length (sort_strings_perm (matches_at (S k))))
      as Hp.
    fold sorted in Hp. rewrite Hnil in Hp. simpl in Hp. lia.
  - apply sort_strings_sorted.
  - apply sort_strings_perm.
Qed.

Lemma locator_keeps_last_match_witness :
  OutputLocator.wait_for_file_by_prefix
    (OutputLocator.appearing
       ["/out/prefix-002"; "/out/prefix-003"; "/out/prefix-001"])
    OutputLocator.steady_clock "/out/prefix-" 10%Z (fun _ => false) 5
  = Some (Ok {| OutputLocator.path := "/out/prefix-003";
                OutputLocator.unlinked :=
                  ["/out/prefix-001"; "/out/prefix-002"] |}).
Proof.
  apply (locator_keeps_last_match
           (OutputLocator.appearing
              ["/out/prefix-002"; "/out/prefix-003"; "/out/prefix-001"])
           OutputLocator.steady_clock "/out/prefix-" 10%Z (fun _ => false)
           5 2 eq_refl).
  simpl. lia.
Defined.

Module LocatorExamples.
Import OutputLocator.

(** The three files of the example, in each order the listing may have. *)
Example three_files_any_order :
  let a := "prefix-001" in
  let b := "prefix-002" in
  let c := "prefix-003" in
  let expected := Ok {| path := c; unlinked := [a; b] |} in
  pick_output [a; b; c] = expected /\ pick_output [a; c; b] = expected
  /\ pick_output [b; a; c] = expected /\ pick_output [b; c; a] = expected
  /\ pick_output [c; a; b] = expected /\ pick_output [c; b; a] = expected.
Proof. repeat split. Qed.

(** One match is returned as it is; nothing is unlinked. *)
Example single_file :
  wait_for_file_by_prefix (appearing ["/out/prefix-001"; "/out/other"])
    steady_clock "/out/prefix-" 10%Z (fun _ => false) 5
  = Some (Ok {| path := "/out/prefix-001"; unlinked := [] |}).
Proof. reflexivity. Qed.

(** The wait ends with the stop event or with the deadline. *)
Example stopped_or_late :
  wait_for_file_by_prefix (appearing ["/out/prefix-001"]) steady_clock
    "/out/prefix-" 10%Z (fun k => Nat.eqb k 1) 5
  = Some (Raise StopEventSetException)
  /\ wait_for_file_by_prefix (appearing ["/out/prefix-001"]) steady_clock
       "/out/prefix-" 0%Z (fun _ => false) 5
     = Some (Raise TimeoutError).
Proof. split; reflexivity. Qed.
End LocatorExamples.

(** ** Process Supervisor *)

Module SupervisorExamples.
Import OutputLocator Supervisor.

(** The stop event is set at the third poll. *)
Example stopped_run :
  run_process sleeping_child steady_clock
    {| cmd := sleep; stop_event := Some (fun k => Nat.eqb k 2);
       suppress_log := false; via_staticx := false; check := true;
       timeout := None; kill_signal := 15%Z; communicate := true;
       stdin := None |} 10
  = Some ([EvLog (LogRunning "sleep 100"); EvPopen ["sleep"; "100"] false;
           EvCommunicate (Some 1%Z) None; EvCommunicate (Some 1%Z) None;
           EvCommunicate (Some 1%Z) None;
           EvSendSignal 15; EvWait; EvPopenExit],
          Raise ProcessStoppedException).
Proof. reflexivity. Qed.

(** The deadline passes at the third poll. *)
Example timed_out_run :
  run_process sleeping_child steady_clock
    {| cmd := sleep; stop_event := Some (fun _ => false);
       suppress_log := false; via_staticx := false; check := true;
       timeout := Some 2%Z; kill_signal := 9%Z; communicate := true;
       stdin := None |} 10
  = Some ([EvLog (LogRunning "sleep 100"); EvPopen ["sleep"; "100"] false;
           EvCommunicate (Some 1%Z) None; EvCommunicate (Some 1%Z) None;
           EvCommunicate (Some 1%Z) None;
           EvSendSignal 9; EvWait; EvPopenExit],
          Raise (TimeoutExpired sleep 2)).
Proof. reflexivity. Qed.

(** Without a stop event and without a timeout, a child that never exits
    blocks the call. *)
Example blocked_run :
  run_process sleeping_child steady_clock (default_args sleep) 10 = None.
Proof. reflexivity. Qed.

Example clean_run :
  run_process (exiting_child (Some (list_ascii_of_string "ok")) (Some []) 0)
    steady_clock (default_args (CmdStr "true")) 1
  = Some ([EvLog (LogRunning "true"); EvPopen ["true"] false;
           EvCommunicate None None; EvPoll; EvPopenExit;
           EvLog (LogExitCode ["true"] 0);
           EvLog (LogStdout ["true"] (list_ascii_of_string "ok"))],
          Ok {| args := ["true"]; returncode := 0;
                stdout := Some (list_ascii_of_string "ok");
                stderr := Some [] |}).
Proof. reflexivity. Qed.
End SupervisorExamples.

Section SupervisorFacts.
Import OutputLocator Supervisor.
Variable w : child.
Variable clk : clock.
Variable a : run_args.

(** The polls before the first one that decides: the child has not exited,
    the stop event is not set and the deadline has not passed. *)
Lemma supervise_loop_skip (is_set : nat -> bool) (end_time : option Z)
  (n : nat) :
  forall j fuel,
    (forall i, j <= i < j + n ->
       communicate_at w i = CommExpired /\ is_set i = false
       /\ (forall et t, end_time = Some et -> timeout a = Some t ->
             (monotonic_at clk i <= et)%Z)) ->
    supervise_loop w clk a is_set end_time j (n + fuel)
    = match supervise_loop w clk a is_set end_time (j + n) fuel with
      | Some (tr, r) =>
          Some (repeat (EvCommunicate (Some 1%Z) (stdin a)) n ++ tr, r)
      | None => None
      end.
Proof.
  induction n as [|n IH]; intros j fuel Hq.
  - rewrite Nat.add_0_r. simpl.
    now destruct (supervise_loop w clk a is_set end_time j fuel)
      as [[tr r]|].
  - destruct (Hq j ltac:(lia)) as (Hc & Hs & Ht).
    cbn [Nat.add supervise_loop]. rewrite Hc, Hs.
    assert (Hl : match end_time, timeout a with
                 | Some et, Some t =>
                     if (monotonic_at clk j >? et)%Z
                     then Some (TimeoutExpired (cmd a) t) else None
                 | _, _ => None
                 end = None).
    { destruct end_time as [et|]; [|reflexivity].
      destruct (timeout a) as [t|]; [|reflexivity].
      specialize (Ht et t eq_refl eq_refl).
      destruct (Z.gtb_spec (monotonic_at clk j) et); [lia | reflexivity]. }
    rewrite Hl, IH.
    + replace (S j + n) with (j + S n) by lia.
      now destruct (supervise_loop w clk a is_set end_time (j + S n) fuel)
        as [[tr r]|].
    + intros i Hi. apply Hq. lia.
Qed.

(** Every failure of [run_process] on a started child is either a failure
    of the wait, raised after the kill and the reaping, or the bad exit
    status found after a clean completion. *)
Lemma run_process_failures (fuel : nat) (tr : list event) (e : exn) :
  popen_error w = None ->
  run_process w clk a fuel = Some (tr, Raise e) ->
  (exists pre,
      wait_phase w clk a fuel = Some (pre, Raise e)
      /\ exists before,
          tr = before ++ [EvSendSignal (kill_signal a); EvWait; EvPopenExit])
  \/ (exists pre out err rc,
         wait_phase w clk a fuel = Some (pre, Ok (out, err, rc))
         /\ check a = true /\ rc <> 0%Z
         /\ e = CalledProcessError rc
                  (fst (start_process w (cmd a) (via_staticx a))) out err).
Proof.
  intros Hp. unfold run_process.
  destruct (start_process w (cmd a) (via_staticx a)) as [argv clear_env].
  rewrite Hp.
  destruct (wait_phase w clk a fuel) as [[pre [[[out err] rc]|e']]|];
    [| |discriminate].
  - destruct (check a); [|discriminate]. cbn [andb].
    destruct (Z.eqb_spec rc 0); [discriminate|]. cbn [negb].
    intros H. inversion H; subst. right. exists pre, out, err, rc. auto.
  - intros H. inversion H; subst. left. exists pre. split; [reflexivity|].
    exists ([EvLog (LogRunning (cmd_text (cmd a)))]
              ++ EvPopen argv clear_env :: pre).
    now rewrite <- app_assoc.
Qed.
End SupervisorFacts.

(** C1: whenever the wait of [run_process] fails (the stop event was seen
    set, the timeout passed, or anything else was raised) the child is sent
    the configured signal and waited on, in that order and as the last
    things done to it, and the same exception then reaches the caller. *)
Theorem run_process_kills_then_reaps (w : Supervisor.child)
  (clk : OutputLocator.clock) (a : Supervisor.run_args) (fuel : nat)
  (pre : list Supervisor.event) (e : exn) :
  Supervisor.popen_error w = None ->
  Supervisor.wait_phase w clk a fuel = Some (pre, Raise e) ->
  exists before,
    Supervisor.run_process w clk a fuel
    = Some (before ++ [Supervisor.EvSendSignal (Supervisor.kill_signal a);
                       Supervisor.EvWait; Supervisor.EvPopenExit],
            Raise e)
    /\ ~ In Supervisor.EvPoll before.
Proof.
  intros Hp Hw. unfold Supervisor.run_process.
  destruct (Supervisor.start_process w (Supervisor.cmd a)
              (Supervisor.via_staticx a)) as [argv clear_env].
  rewrite Hp, Hw.
  exists ([Supervisor.EvLog
             (Supervisor.LogRunning (Supervisor.cmd_text (Supervisor.cmd a)))]
            ++ Supervisor.EvPopen argv clear_env :: pre).
  split; [now rewrite <- app_assoc|].
  assert (Hpre : forall x n t, In x pre ->
            Supervisor.wait_phase w clk a n = Some (pre, t) ->
            x <> Supervisor.EvPoll).
  { clear. intros x n t Hin. unfold Supervisor.wait_phase.
    assert (Hloop : forall is_set et j m tr r,
              Supervisor.supervise_loop w clk a is_set et j m = Some (tr, r) ->
              Forall (fun y => y <> Supervisor.EvPoll) tr).
    { intros is_set et j m. revert j.
      induction m as [|m IH]; intros j tr r; simpl; [discriminate|].
      destruct (Supervisor.communicate_at w j).
      - intros H; inversion H; subst. repeat constructor; discriminate.
      - destruct (is_set j).
        + intros H; inversion H; subst. repeat constructor; discriminate.
        + destruct (match et, Supervisor.timeout a with
                    | Some et0, Some t0 =>
                        if (OutputLocator.monotonic_at clk j >? et0)%Z
                        then Some (TimeoutExpired (Supervisor.cmd a) t0)
                        else None
                    | _, _ => None
                    end).
          * intros H; inversion H; subst.
            repeat constructor; discriminate.
          * destruct (Supervisor.supervise_loop w clk a is_set et (S j) m)
              as [[tr' r']|] eqn:E; [|discriminate].
            intros H; inversion H; subst.
            constructor; [discriminate | eapply IH; exact E].
      - intros H; inversion H; subst. repeat constructor; discriminate. }
    destruct (Supervisor.stop_event a) as [is_set|].
    - destruct (negb (Supervisor.communicate a)).
      + intros H; inversion H; subst. destruct Hin.
      + intros H. apply Hloop in H. rewrite Forall_forall in H. now apply H.
    - destruct (Supervisor.timeout a).
      + intros H; inversion H; subst. destruct Hin.
      + destruct (Supervisor.communicate a).
        * destruct (Supervisor.communicate_at w 0); intros H;
            inversion H; subst; destruct Hin as [<-|[]]; discriminate.
        * destruct (Supervisor.wait_result w); intros H;
            inversion H; subst; destruct Hin as [<-|[]]; discriminate. }
  intros Hin. apply in_app_or in Hin as [Hin|Hin].
  - destruct Hin as [Hin|[]]. discriminate.
  - destruct Hin as [Hin|Hin]; [discriminate|].
    now apply (Hpre _ _ _ Hin Hw).
Qed.

(** The three ways the supervised wait fails, from what the call observes:
    after [n] polls in which nothing happened, the stop event is seen set,
    the deadline has passed, or [communicate] raises. *)
Lemma wait_phase_failures (w : Supervisor.child) (clk : OutputLocator.clock)
  (a : Supervisor.run_args) (is_set : nat -> bool) (n fuel : nat) :
  Supervisor.stop_event a = Some is_set ->
  Supervisor.communicate a = true ->
  (forall i, i < n ->
     Supervisor.communicate_at w i = Supervisor.CommExpired
     /\ is_set i = false
     /\ (forall t, Supervisor.timeout a = Some t ->
           (OutputLocator.monotonic_at clk i
            <= OutputLocator.monotonic_start clk + t)%Z)) ->
  let polls :=
    repeat (Supervisor.EvCommunicate (Some 1%Z) (Supervisor.stdin a)) n
      ++ [Supervisor.EvCommunicate (Some 1%Z) (Supervisor.stdin a)] in
  (Supervisor.communicate_at w n = Supervisor.CommExpired ->
   is_set n = true ->
   Supervisor.wait_phase w clk a (n + S fuel)
   = Some (polls, Raise ProcessStoppedException))
  /\ (forall t,
        Supervisor.communicate_at w n = Supervisor.CommExpired ->
        is_set n = false ->
        Supervisor.timeout a = Some t ->
        (OutputLocator.monotonic_at clk n
         > OutputLocator.monotonic_start clk + t)%Z ->
        Supervisor.wait_phase w clk a (n + S fuel)
        = Some (polls, Raise (TimeoutExpired (Supervisor.cmd a) t)))
  /\ (forall e,
        Supervisor.communicate_at w n = Supervisor.CommRaises e ->
        Supervisor.wait_phase w clk a (n + S fuel) = Some (polls, Raise e)).
Proof.
  intros Hstop Hcomm Hquiet polls.
  assert (Hskip : forall end_time,
            end_time = match Supervisor.timeout a with
                       | Some t => Some (OutputLocator.monotonic_start clk + t)%Z
                       | None => None
                       end ->
            Supervisor.wait_phase w clk a (n + S fuel)
            = match Supervisor.supervise_loop w clk a is_set end_time n
                      (S fuel) with
              | Some (tr, r) =>
                  Some (repeat (Supervisor.EvCommunicate (Some 1%Z)
                                  (Supervisor.stdin a)) n ++ tr, r)
              | None => None
              end).
  { intros end_time ->. unfold Supervisor.wait_phase.
    rewrite Hstop, Hcomm. cbn [negb].
    rewrite (supervise_loop_skip w clk a is_set _ n 0 (S fuel));
      [reflexivity|].
    intros i Hi. destruct (Hquiet i ltac:(lia)) as (Hc & Hs & Ht).
    repeat split; try assumption.
    intros et t Het Htm. rewrite Htm in Het. inversion Het; subst.
    now apply Ht. }
  rewrite (Hskip _ eq_refl). cbn [Supervisor.supervise_loop].
  repeat split.
  - intros Hc Hs. now rewrite Hc, Hs.
  - intros t Hc Hs Ht Hlate. rewrite Hc, Hs, Ht.
    destruct (Z.gtb_spec (OutputLocator.monotonic_at clk n)
                (OutputLocator.monotonic_start clk + t)); [reflexivity|lia].
  - intros e Hc. now rewrite Hc.
Qed.

Lemma run_process_kills_then_reaps_witness :
  exists before,
    Supervisor.run_process Supervisor.sleeping_child
      OutputLocator.steady_clock
      {| Supervisor.cmd := Supervisor.sleep;
         Supervisor.stop_event := Some (fun k => Nat.eqb k 2);
         Supervisor.suppress_log := false; Supervisor.via_staticx := false;
         Supervisor.check := true; Supervisor.timeout := None;
         Supervisor.kill_signal := 15%Z; Supervisor.communicate := true;
         Supervisor.stdin := None |} 10
    = Some (before ++ [Supervisor.EvSendSignal 15%Z;
                       Supervisor.EvWait; Supervisor.EvPopenExit],
            Raise ProcessStoppedException)
    /\ ~ In Supervisor.EvPoll before.
Proof.
  apply (run_process_kills_then_reaps Supervisor.sleeping_child
           OutputLocator.steady_clock
           {| Supervisor.cmd := Supervisor.sleep;
              Supervisor.stop_event := Some (fun k => Nat.eqb k 2);
              Supervisor.suppress_log := false;
              Supervisor.via_staticx := false;
              Supervisor.check := true; Supervisor.timeout := None;
              Supervisor.kill_signal := 15%Z;
              Supervisor.communicate := true;
              Supervisor.stdin := None |} 10
           (repeat (Supervisor.EvCommunicate (Some 1%Z) None) 3)
           ProcessStoppedException eq_refl eq_refl).
Defined.

(** C2, as stated, fails: with no stop event and a timeout of 5, the call
    on a child that never exits does not wait and does not raise a timeout;
    it raises an assertion error, as it does on a child that has exited. *)
Lemma timeout_without_signal_is_refused :
  let a :=
    {| Supervisor.cmd := Supervisor.sleep; Supervisor.stop_event := None;
       Supervisor.suppress_log := false; Supervisor.via_staticx := false;
       Supervisor.check := true; Supervisor.timeout := Some 5%Z;
       Supervisor.kill_signal := 9%Z; Supervisor.communicate := true;
       Supervisor.stdin := None |} in
  let outcome :=
    Some ([Supervisor.EvLog (Supervisor.LogRunning "sleep 100");
           Supervisor.EvPopen ["sleep"; "100"] false;
           Supervisor.EvSendSignal 9%Z; Supervisor.EvWait;
           Supervisor.EvPopenExit],
          @Raise Supervisor.CompletedProcess
            (AssertionError "expected no timeout, got 5")) in
  Supervisor.run_process Supervisor.sleeping_child
    OutputLocator.steady_clock a 10 = outcome
  /\ Supervisor.run_process (Supervisor.exiting_child None None 0%Z)
       OutputLocator.steady_clock a 10 = outcome
  /\ AssertionError "expected no timeout, got 5"
     <> TimeoutExpired Supervisor.sleep 5%Z.
Proof. cbv zeta. repeat split. discriminate. Qed.

(** C2, as the code has it: without a stop event, a supplied timeout is
    refused with an assertion error, raised after the kill and the reaping
    and before any wait; with no timeout, the call makes one untimed
    [communicate] and returns when the child has exited, and does not
    return while the child has not. *)
Theorem run_process_without_signal (w : Supervisor.child)
  (clk : OutputLocator.clock) (a : Supervisor.run_args) (fuel : nat) :
  Supervisor.popen_error w = None ->
  Supervisor.stop_event a = None ->
  let argv := fst (Supervisor.start_process w (Supervisor.cmd a)
                     (Supervisor.via_staticx a)) in
  let clear_env := snd (Supervisor.start_process w (Supervisor.cmd a)
                          (Supervisor.via_staticx a)) in
  let started :=
    [Supervisor.EvLog
       (Supervisor.LogRunning (Supervisor.cmd_text (Supervisor.cmd a)));
     Supervisor.EvPopen argv clear_env] in
  (forall t, Supervisor.timeout a = Some t ->
     Supervisor.run_process w clk a fuel
     = Some (started ++ [Supervisor.EvSendSignal (Supervisor.kill_signal a);
                         Supervisor.EvWait; Supervisor.EvPopenExit],
             Raise (AssertionError
                      ("expected no timeout, got " ++ str_of_int t))))
  /\ (Supervisor.timeout a = None -> Supervisor.communicate a = true ->
      forall out err rc,
        Supervisor.communicate_at w 0 = Supervisor.CommDone out err rc ->
        let result := {| Supervisor.args := argv;
                         Supervisor.returncode := rc;
                         Supervisor.stdout := out;
                         Supervisor.stderr := err |} in
        Supervisor.run_process w clk a fuel
        = Some (started
                  ++ [Supervisor.EvCommunicate None (Supervisor.stdin a);
                      Supervisor.EvPoll; Supervisor.EvPopenExit]
                  ++ Supervisor.completion_logs (Supervisor.suppress_log a)
                       result,
                if (Supervisor.check a && negb (rc =? 0)%Z)%bool
                then Raise (CalledProcessError rc argv out err)
                else Ok result))
  /\ (Supervisor.timeout a = None -> Supervisor.communicate a = true ->
      Supervisor.communicate_at w 0 = Supervisor.CommExpired ->
      Supervisor.run_process w clk a fuel = None).
Proof.
  intros Hp Hs argv clear_env started. subst argv clear_env started.
  unfold Supervisor.run_process, Supervisor.wait_phase.
  destruct (Supervisor.start_process w (Supervisor.cmd a)
              (Supervisor.via_staticx a)) as [argv clear_env].
  rewrite Hp, Hs. cbn [fst snd]. repeat split.
  - intros t Ht. now rewrite Ht.
  - intros Ht Hc out err rc Hd. rewrite Ht, Hc, Hd. cbv zeta.
    now destruct (Supervisor.check a && negb (rc =? 0)%Z)%bool.
  - intros Ht Hc He. now rewrite Ht, Hc, He.
Qed.

Lemma run_process_without_signal_witness :
  Supervisor.run_process Supervisor.sleeping_child OutputLocator.steady_clock
    {| Supervisor.cmd := Supervisor.sleep; Supervisor.stop_event := None;
       Supervisor.suppress_log := false; Supervisor.via_staticx := false;
       Supervisor.check := true; Supervisor.timeout := Some 5%Z;
       Supervisor.kill_signal := 9%Z; Supervisor.communicate := true;
       Supervisor.stdin := None |} 10
  = Some ([Supervisor.EvLog (Supervisor.LogRunning "sleep 100");
           Supervisor.EvPopen ["sleep"; "100"] false;
           Supervisor.EvSendSignal 9%Z; Supervisor.EvWait;
           Supervisor.EvPopenExit],
          Raise (AssertionError "expected no timeout, got 5")).
Proof.
  destruct (run_process_without_signal Supervisor.sleeping_child
              OutputLocator.steady_clock
              {| Supervisor.cmd := Supervisor.sleep;
                 Supervisor.stop_event := None;
                 Supervisor.suppress_log := false;
                 Supervisor.via_staticx := false;
                 Supervisor.check := true; Supervisor.timeout := Some 5%Z;
                 Supervisor.kill_signal := 9%Z;
                 Supervisor.communicate := true;
                 Supervisor.stdin := None |} 10 eq_refl eq_refl)
    as [H _].
  exact (H 5%Z eq_refl).
Defined.

(** ** Rendering of the process failure *)

Lemma contains_refl (s : string) : Exceptions.contains s s.
Proof. exists "", "". now rewrite string_app_nil. Qed.

Lemma contains_app_l (a b sub : string) :
  Exceptions.contains b sub -> Exceptions.contains (a ++ b) sub.
Proof.
  intros [pre [post ->]]. exists (a ++ pre)%string, post.
  now rewrite string_app_assoc.
Qed.

Lemma contains_app_r (a b sub : string) :
  Exceptions.contains a sub -> Exceptions.contains (a ++ b) sub.
Proof.
  intros [pre [post ->]]. exists pre, (post ++ b)%string.
  now rewrite !string_app_assoc.
Qed.

Lemma contains_app_split (a b c : string) :
  Exceptions.contains (a ++ b ++ c) (a ++ b).
Proof. exists "", c. now rewrite string_app_assoc. Qed.

(** C7: with [check] set, a child that has exited with a status other than
    zero makes [run_process] raise [CalledProcessError] with the argument
    vector, that status and the captured output; rendered, the exception
    shows the command, the signal (by name where the enumeration has it, by
    number otherwise) or the exit status, and both captured streams. *)
Theorem bad_exit_raises_called_process_error
  (signals_repr : Z -> option string) (str_of_args : list string -> string)
  (w : Supervisor.child) (clk : OutputLocator.clock)
  (a : Supervisor.run_args) (fuel : nat) (pre : list Supervisor.event)
  (out err : option bytes) (rc : Z) :
  Supervisor.popen_error w = None ->
  Supervisor.wait_phase w clk a fuel = Some (pre, Ok (out, err, rc)) ->
  Supervisor.check a = true ->
  rc <> 0%Z ->
  let argv := fst (Supervisor.start_process w (Supervisor.cmd a)
                     (Supervisor.via_staticx a)) in
  (exists tr, Supervisor.run_process w clk a fuel
              = Some (tr, Raise (CalledProcessError rc argv out err)))
  /\ exists s,
      Exceptions.exn_str signals_repr str_of_args
        (CalledProcessError rc argv out err) = Some s
      /\ Exceptions.contains s ("Command '" ++ str_of_args argv ++ "'")
      /\ Exceptions.contains s ("stdout: " ++ Exceptions.format_bytes out)
      /\ Exceptions.contains s ("stderr: " ++ Exceptions.format_bytes err)
      /\ ((rc < 0)%Z ->
          match signals_repr (- rc)%Z with
          | Some sig => Exceptions.contains s ("died with " ++ sig ++ ".")
          | None =>
              Exceptions.contains s
                ("died with unknown signal " ++ str_of_int (- rc) ++ ".")
          end)
      /\ ((0 < rc)%Z ->
          Exceptions.contains s
            ("returned non-zero exit status " ++ str_of_int rc ++ ". ")).
Proof.
  intros Hp Hw Hc Hrc argv. split.
  - unfold Supervisor.run_process. subst argv.
    destruct (Supervisor.start_process w (Supervisor.cmd a)
                (Supervisor.via_staticx a)) as [argv clear_env].
    rewrite Hp, Hw, Hc. apply Z.eqb_neq in Hrc. rewrite Hrc.
    cbn [andb negb fst]. eexists. reflexivity.
  - eexists. split; [reflexivity|].
    unfold Exceptions.called_process_error_str, Exceptions.base_message.
    apply Z.eqb_neq in Hrc. rewrite Hrc. cbn [negb andb].
    set (A := str_of_args argv).
    set (tail := (Exceptions.newline ++ "stdout: "
                    ++ Exceptions.format_bytes out ++ Exceptions.newline
                    ++ "stderr: " ++ Exceptions.format_bytes err)%string).
    repeat split.
    + destruct (rc <? 0)%Z; [destruct (signals_repr (- rc)%Z) as [sig|]|].
      * exists "", (" died with " ++ sig ++ "." ++ tail)%string.
        now rewrite !string_app_assoc.
      * exists "", (" died with unknown signal " ++ str_of_int (- rc) ++ "."
                      ++ tail)%string.
        now rewrite !string_app_assoc.
      * exists "", (" returned non-zero exit status " ++ str_of_int rc
                      ++ ". " ++ tail)%string.
        now rewrite !string_app_assoc.
    + apply contains_app_l. subst tail. apply contains_app_l.
      apply contains_app_split.
    + do 5 apply contains_app_l. apply contains_refl.
    + intros Hneg. apply Z.ltb_lt in Hneg. rewrite Hneg.
      destruct (signals_repr (- rc)%Z) as [sig|].
      * exists ("Command '" ++ A ++ "' ")%string, tail.
        now rewrite !string_app_assoc.
      * exists ("Command '" ++ A ++ "' ")%string, tail.
        now rewrite !string_app_assoc.
    + intros Hpos.
      destruct (Z.ltb_spec rc 0); [lia|].
      exists ("Command '" ++ A ++ "' ")%string, tail.
      now rewrite !string_app_assoc.
Qed.

Lemma bad_exit_raises_called_process_error_witness :
  (exists tr,
      Supervisor.run_process
        (Supervisor.exiting_child (Some (list_ascii_of_string "out"))
           (Some (list_ascii_of_string "err")) (-9)%Z)
        OutputLocator.steady_clock
        (Supervisor.default_args Supervisor.sleep) 1
      = Some (tr, Raise (CalledProcessError (-9)%Z ["sleep"; "100"]
                           (Some (list_ascii_of_string "out"))
                           (Some (list_ascii_of_string "err")))))
  /\ exists s,
      Exceptions.exn_str Exceptions.some_signals Exceptions.str_of_plain_args
        (CalledProcessError (-9)%Z ["sleep"; "100"]
           (Some (list_ascii_of_string "out"))
           (Some (list_ascii_of_string "err"))) = Some s
      /\ Exceptions.contains s "died with <Signals.SIGKILL: 9>.".
Proof.
  destruct (bad_exit_raises_called_process_error Exceptions.some_signals
              Exceptions.str_of_plain_args
              (Supervisor.exiting_child (Some (list_ascii_of_string "out"))
                 (Some (list_ascii_of_string "err")) (-9)%Z)
              OutputLocator.steady_clock
              (Supervisor.default_args Supervisor.sleep) 1
              [Supervisor.EvCommunicate None None]
              (Some (list_ascii_of_string "out"))
              (Some (list_ascii_of_string "err")) (-9)%Z
              eq_refl eq_refl eq_refl ltac:(discriminate))
    as [Hrun [s (Hs & _ & _ & _ & Hsig & _)]].
  split; [exact Hrun|].
  exists s. split; [exact Hs|].
  apply Hsig. reflexivity.
Defined.

Module RenderingExamples.
Import Exceptions.

Example killed_rendering :
  called_process_error_str some_signals str_of_plain_args (-9)
    ["sleep"; "100"] (Some (list_ascii_of_string "out")) None
  = ("Command '['sleep', '100']' died with <Signals.SIGKILL: 9>."
      ++ newline ++ "stdout: b'out'" ++ newline ++ "stderr: None")%string.
Proof. reflexivity. Qed.

Example unknown_signal_rendering :
  called_process_error_str some_signals str_of_plain_args (-77)
    ["sleep"; "100"] None None
  = ("Command '['sleep', '100']' died with unknown signal 77."
      ++ newline ++ "stdout: None" ++ newline ++ "stderr: None")%string.
Proof. reflexivity. Qed.

Example exit_code_rendering :
  called_process_error_str some_signals str_of_plain_args 3
    ["false"] (Some []) (Some (list_ascii_of_string "no"))
  = ("Command '['false']' returned non-zero exit status 3. "
      ++ newline ++ "stdout: b''" ++ newline ++ "stderr: b'no'")%string.
Proof. reflexivity. Qed.
End RenderingExamples.

(** * Further properties of the code *)

(** ** Cancellable wait *)

(** Where the loop of [wait_event] stops: at the first observation [k] at
    which the condition holds, the stop event is set or the clock is past
    the deadline, checked in that order. *)
Lemma wait_event_loop_decides (clk : OutputLocator.clock) (end_time : Z)
  (stop_event condition : nat -> bool) (fuel : nat) :
  forall j r,
    OutputLocator.wait_event_loop clk end_time stop_event condition j fuel
    = Some r ->
    exists k,
      j <= k < j + fuel
      /\ (forall i, j <= i < k ->
            condition i = false /\ stop_event i = false
            /\ (OutputLocator.monotonic_at clk i <= end_time)%Z)
      /\ ((r = Ok k /\ condition k = true)
          \/ (r = Raise StopEventSetException
              /\ condition k = false /\ stop_event k = true)
          \/ (r = Raise TimeoutError
              /\ condition k = false /\ stop_event k = false
              /\ (OutputLocator.monotonic_at clk k > end_time)%Z)).
Proof.
  induction fuel as [|fuel IH]; intros j r; simpl; [discriminate|].
  destruct (condition j) eqn:Hc.
  { intros H; inversion H; subst. exists j.
    split; [lia|]. split; [intros i Hi; lia|]. left. auto. }
  destruct (stop_event j) eqn:Hs.
  { intros H; inversion H; subst. exists j.
    split; [lia|]. split; [intros i Hi; lia|]. right. left. auto. }
  destruct (Z.gtb_spec (OutputLocator.monotonic_at clk j) end_time) as [Hl|Hl].
  { intros H; inversion H; subst. exists j.
    split; [lia|]. split; [intros i Hi; lia|]. right. right.
    repeat split; auto. lia. }
  intros H. apply IH in H as (k & Hk & Hq & Hr).
  exists k. split; [lia|]. split; [|exact Hr].
  intros i Hi. destruct (Nat.eq_dec i j) as [->|Hne].
  - auto.
  - apply Hq. lia.
Qed.

Lemma wait_event_raise_kind (clk : OutputLocator.clock) (timeout : Z)
  (stop_event condition : nat -> bool) (fuel : nat) (e : exn) :
  OutputLocator.wait_event clk timeout stop_event condition fuel
  = Some (Raise e) ->
  e = StopEventSetException \/ e = TimeoutError.
Proof.
  unfold OutputLocator.wait_event. intros H.
  apply wait_event_loop_decides in H as (k & _ & _ & Hr).
  destruct Hr as [[E _]|[[E _]|[E _]]]; try discriminate;
    inversion E; auto.
Qed.

(** X1: a wait that returns has seen the condition hold at the observation
    it returns at, and before that it saw neither the condition, nor the
    stop event, nor a clock reading past the deadline. *)
Theorem wait_event_returns_at_first_success (clk : OutputLocator.clock)
  (timeout : Z) (stop_event condition : nat -> bool) (fuel k : nat) :
  OutputLocator.wait_event clk timeout stop_event condition fuel
  = Some (Ok k) ->
  condition k = true
  /\ k < fuel
  /\ forall i, i < k ->
       condition i = false /\ stop_event i = false
       /\ (OutputLocator.monotonic_at clk i
           <= OutputLocator.monotonic_start clk + timeout)%Z.
Proof.
  unfold OutputLocator.wait_event. intros H.
  apply wait_event_loop_decides in H as (k' & Hk & Hq & Hr).
  destruct Hr as [[E Hc]|[[E _]|[E _]]]; try discriminate.
  inversion E; subst k'. repeat split; [exact Hc | lia |..];
    destruct (Hq i ltac:(lia)) as (H1 & H2 & H3); assumption.
Qed.

Lemma wait_event_returns_at_first_success_witness :
  Nat.eqb 2 2 = true
  /\ 2 < 5
  /\ forall i, i < 2 ->
       Nat.eqb i 2 = false /\ false = false
       /\ (OutputLocator.monotonic_at OutputLocator.steady_clock i
           <= OutputLocator.monotonic_start OutputLocator.steady_clock + 10)%Z.
Proof.
  apply (wait_event_returns_at_first_success OutputLocator.steady_clock
           10%Z (fun _ => false) (fun i => Nat.eqb i 2) 5 2 eq_refl).
Defined.

(** X2: a wait fails in two ways only.  It raises [StopEventSetException]
    when the stop event was seen set, and [TimeoutError] when a clock
    reading was past the deadline; in both cases the condition did not hold
    at that observation, and the stop event wins over the deadline. *)
Theorem wait_event_failures (clk : OutputLocator.clock) (timeout : Z)
  (stop_event condition : nat -> bool) (fuel : nat) (e : exn) :
  OutputLocator.wait_event clk timeout stop_event condition fuel
  = Some (Raise e) ->
  exists k,
    k < fuel /\ condition k = false
    /\ ((e = StopEventSetException /\ stop_event k = true)
        \/ (e = TimeoutError /\ stop_event k = false
            /\ (OutputLocator.monotonic_at clk k
                > OutputLocator.monotonic_start clk + timeout)%Z)).
Proof.
  unfold OutputLocator.wait_event. intros H.
  apply wait_event_loop_decides in H as (k & Hk & _ & Hr).
  exists k. split; [lia|].
  destruct Hr as [[E _]|[(E & Hc & Hs)|(E & Hc & Hs & Hl)]];
    [discriminate | |]; inversion E; subst; auto.
Qed.

Lemma wait_event_failures_witness :
  exists k,
    k < 5 /\ Nat.eqb k 7 = false
    /\ ((TimeoutError = StopEventSetException /\ false = true)
        \/ (TimeoutError = TimeoutError /\ false = false
            /\ (OutputLocator.monotonic_at OutputLocator.steady_clock k
                > OutputLocator.monotonic_start OutputLocator.steady_clock
                  + 1)%Z)).
Proof.
  apply (wait_event_failures OutputLocator.steady_clock 1%Z
           (fun _ => false) (fun i => Nat.eqb i 7) 5 TimeoutError eq_refl).
Defined.

(** X3: the wait does not outlast the deadline: once some clock reading is
    past it, the wait has ended by that observation. *)
Theorem wait_event_ends_by_deadline (clk : OutputLocator.clock)
  (timeout : Z) (stop_event condition : nat -> bool) (n fuel : nat) :
  (OutputLocator.monotonic_at clk n
   > OutputLocator.monotonic_start clk + timeout)%Z ->
  n < fuel ->
  exists r,
    OutputLocator.wait_event clk timeout stop_event condition fuel = Some r
    /\ forall k, r = Ok k -> k <= n.
Proof.
  unfold OutputLocator.wait_event.
  set (end_time := (OutputLocator.monotonic_start clk + timeout)%Z).
  intros Hlate.
  assert (H : forall m j fuel',
             j + m = n -> m < fuel' ->
             exists r,
               OutputLocator.wait_event_loop clk end_time stop_event
                 condition j fuel' = Some r
               /\ forall k, r = Ok k -> k <= n).
  { induction m as [|m IH]; intros j fuel' Hj Hf;
      (destruct fuel' as [|fuel']; [lia|]); simpl.
    - replace j with n by lia.
      destruct (condition n).
      { eexists. split; [reflexivity|]. intros k E. inversion E. lia. }
      destruct (stop_event n).
      { eexists. split; [reflexivity|]. discriminate. }
      destruct (Z.gtb_spec (OutputLocator.monotonic_at clk n) end_time);
        [|lia].
      eexists. split; [reflexivity|]. discriminate.
    - destruct (condition j).
      { eexists. split; [reflexivity|]. intros k E. inversion E. lia. }
      destruct (stop_event j).
      { eexists. split; [reflexivity|]. discriminate. }
      destruct (OutputLocator.monotonic_at clk j >? end_time)%Z.
      { eexists. split; [reflexivity|]. discriminate. }
      apply IH; lia. }
  intros Hf. apply (H n 0 fuel); lia.
Qed.

Lemma wait_event_ends_by_deadline_witness :
  exists r,
    OutputLocator.wait_event OutputLocator.steady_clock 3%Z
      (fun _ => false) (fun _ => false) 9 = Some r
    /\ forall k, r = Ok k -> k <= 3.
Proof.
  apply (wait_event_ends_by_deadline OutputLocator.steady_clock 3%Z
           (fun _ => false) (fun _ => false) 3 9).
  - reflexivity.
  - lia.
Defined.

(** ** Output Locator, continued *)

(** The locator succeeds on every non-empty list of matches, and splits it
    into the files it unlinks and the one it returns. *)
Lemma pick_output_split (output_files : list string)
  (r : OutputLocator.located) :
  OutputLocator.pick_output output_files = Ok r ->
  Permutation output_files
    (OutputLocator.unlinked r ++ [OutputLocator.path r])
  /\ Sorted (fun a b => String.leb a b = true)
       (OutputLocator.unlinked r ++ [OutputLocator.path r]).
Proof.
  unfold OutputLocator.pick_output.
  destruct (Nat.eqb_spec (List.length output_files) 1) as [E|E]; cbn [negb].
  - destruct output_files as [|f [|g l]]; try discriminate.
    intros H; inversion H; subst; simpl. split; [reflexivity|].
    repeat constructor.
  - pose proof (all_but_last_last_slice (sort_strings output_files)) as Hs.
    destruct (OutputLocator.last_slice (sort_strings output_files))
      as [|f l] eqn:El; [discriminate|].
    intros H; inversion H; subst; simpl.
    assert (l = []) as ->.
    { unfold OutputLocator.last_slice in El.
      destruct (rev (sort_strings output_files)); [discriminate|].
      now inversion El. }
    rewrite Hs. split; [apply sort_strings_perm | apply sort_strings_sorted].
Qed.

(** X5: the matches found at the re-listing are exactly the files the
    locator unlinks together with the one it returns; when the listing
    names no path twice, the returned file is not among the unlinked. *)
Theorem locator_keeps_what_it_returns (dir : OutputLocator.directory)
  (clk : OutputLocator.clock) (prefix : string) (timeout : Z)
  (stop_event : nat -> bool) (fuel : nat) (r : OutputLocator.located) :
  OutputLocator.wait_for_file_by_prefix dir clk prefix timeout stop_event fuel
  = Some (Ok r) ->
  exists k,
    Permutation (OutputLocator.glob dir (S k) (prefix ++ "*"))
      (OutputLocator.unlinked r ++ [OutputLocator.path r])
    /\ (NoDup (dir (S k)) ->
        ~ In (OutputLocator.path r) (OutputLocator.unlinked r)).
Proof.
  unfold OutputLocator.wait_for_file_by_prefix.
  destruct (OutputLocator.wait_event clk timeout stop_event _ fuel)
    as [[k|e]|] eqn:Hw; try discriminate.
  intros H. inversion H as [Hp]. clear H. exists k.
  apply pick_output_split in Hp as [Hperm _]. split; [exact Hperm|].
  intros Hnd Hin.
  assert (Hn : NoDup (OutputLocator.unlinked r ++ [OutputLocator.path r])).
  { eapply Permutation_NoDup; [exact Hperm|].
    apply NoDup_filter. exact Hnd. }
  apply NoDup_remove_2 in Hn. rewrite app_nil_r in Hn. contradiction.
Qed.

Lemma locator_keeps_what_it_returns_witness :
  exists k,
    Permutation
      (OutputLocator.glob
         (OutputLocator.appearing
            ["/out/prefix-002"; "/out/other"; "/out/prefix-001"])
         (S k) "/out/prefix-*")
      (["/out/prefix-001"] ++ ["/out/prefix-002"])
    /\ (NoDup (OutputLocator.appearing
                 ["/out/prefix-002"; "/out/other"; "/out/prefix-001"] (S k))
        -> ~ In "/out/prefix-002" ["/out/prefix-001"]).
Proof.
  apply (locator_keeps_what_it_returns
           (OutputLocator.appearing
              ["/out/prefix-002"; "/out/other"; "/out/prefix-001"])
           OutputLocator.steady_clock "/out/prefix-" 10%Z (fun _ => false) 5
           {| OutputLocator.path := "/out/prefix-002";
              OutputLocator.unlinked := ["/out/prefix-001"] |} eq_refl).
Defined.

(** The order of [str] is transitive. *)
Lemma string_compare_trans (s1 : string) :
  forall s2 s3,
    String.compare s1 s2 <> Gt -> String.compare s2 s3 <> Gt ->
    String.compare s1 s3 <> Gt.
Proof.
  induction s1 as [|a s1 IH]; intros [|b s2] [|c s3]; simpl;
    try congruence.
  unfold Ascii.compare.
  remember (N_of_ascii a) as na. remember (N_of_ascii b) as nb.
  remember (N_of_ascii c) as nc.
  destruct (N.compare_spec na nb) as [Eab|Lab|Gab];
    destruct (N.compare_spec nb nc) as [Ebc|Lbc|Gbc];
    destruct (N.compare_spec na nc) as [Eac|Lac|Gac];
    simpl; intros H1 H2; try congruence; try lia.
  now apply IH with (s2 := s2).
Qed.

Lemma string_leb_trans (s1 s2 s3 : string) :
  String.leb s1 s2 = true -> String.leb s2 s3 = true ->
  String.leb s1 s3 = true.
Proof.
  unfold String.leb. intros H1 H2.
  pose proof (string_compare_trans s1 s2 s3) as H.
  destruct (String.compare s1 s2); destruct (String.compare s2 s3);
    destruct (String.compare s1 s3); try discriminate; try reflexivity;
    exfalso; apply H; congruence.
Qed.

Lemma sorted_app_last_max (l : list string) (x : string) :
  Sorted (fun a b => String.leb a b = true) (l ++ [x]) ->
  Forall (fun f => String.leb f x = true) l.
Proof.
  intros Hs. apply Sorted_StronglySorted in Hs.
  - induction l as [|y l IH]; [constructor|].
    simpl in Hs. inversion Hs as [|? ? Hs' Hall]; subst.
    constructor; [|now apply IH].
    rewrite Forall_forall in Hall. apply Hall.
    apply in_or_app. right. now left.
  - intros a b c. apply string_leb_trans.
Qed.

(** X6: the path the locator returns is the greatest of the matches in the
    order of [str], whatever order the system listed them in. *)
Theorem locator_returns_greatest (dir : OutputLocator.directory)
  (clk : OutputLocator.clock) (prefix : string) (timeout : Z)
  (stop_event : nat -> bool) (fuel : nat) (r : OutputLocator.located) :
  OutputLocator.wait_for_file_by_prefix dir clk prefix timeout stop_event fuel
  = Some (Ok r) ->
  exists k,
    In (OutputLocator.path r) (OutputLocator.glob dir (S k) (prefix ++ "*"))
    /\ Forall (fun f => String.leb f (OutputLocator.path r) = true)
         (OutputLocator.glob dir (S k) (prefix ++ "*")).
Proof.
  unfold OutputLocator.wait_for_file_by_prefix.
  destruct (OutputLocator.wait_event clk timeout stop_event _ fuel)
    as [[k|e]|] eqn:Hw; try discriminate.
  intros H. inversion H as [Hp]. clear H. exists k.
  apply pick_output_split in Hp as [Hperm Hsorted].
  apply sorted_app_last_max in Hsorted.
  split.
  - eapply Permutation_in; [apply Permutation_sym; exact Hperm|].
    apply in_or_app. right. now left.
  - apply Forall_forall. intros f Hf.
    eapply Permutation_in in Hf; [|exact Hperm].
    apply in_app_or in Hf as [Hf|[<-|[]]].
    + rewrite Forall_forall in Hsorted. now apply Hsorted.
    + now destruct (String.leb_total (OutputLocator.path r)
                      (OutputLocator.path r)).
Qed.

Lemma locator_returns_greatest_witness :
  exists k,
    In "/out/prefix-003"
      (OutputLocator.glob
         (OutputLocator.appearing
            ["/out/prefix-002"; "/out/prefix-003"; "/out/prefix-001"])
         (S k) "/out/prefix-*")
    /\ Forall (fun f => String.leb f "/out/prefix-003" = true)
         (OutputLocator.glob
            (OutputLocator.appearing
               ["/out/prefix-002"; "/out/prefix-003"; "/out/prefix-001"])
            (S k) "/out/prefix-*").
Proof.
  apply (locator_returns_greatest
           (OutputLocator.appearing
              ["/out/prefix-002"; "/out/prefix-003"; "/out/prefix-001"])
           OutputLocator.steady_clock "/out/prefix-" 10%Z (fun _ => false) 5
           {| OutputLocator.path := "/out/prefix-003";
              OutputLocator.unlinked :=
                ["/out/prefix-001"; "/out/prefix-002"] |} eq_refl).
Defined.

(** X7: the two edges of the re-listing.  A single match is returned as it
    is and nothing is unlinked; when the matches seen by the wait are gone
    at the re-listing, the locator raises [IndexError]. *)
Theorem locator_single_or_vanished (dir : OutputLocator.directory)
  (clk : OutputLocator.clock) (prefix : string) (timeout : Z)
  (stop_event : nat -> bool) (fuel k : nat) :
  OutputLocator.wait_event clk timeout stop_event
    (fun i => Nat.ltb 0
                (List.length (OutputLocator.glob dir i (prefix ++ "*"))))
    fuel = Some (Ok k) ->
  (forall f, OutputLocator.glob dir (S k) (prefix ++ "*") = [f] ->
     OutputLocator.wait_for_file_by_prefix dir clk prefix timeout stop_event
       fuel
     = Some (Ok {| OutputLocator.path := f; OutputLocator.unlinked := [] |}))
  /\ (OutputLocator.glob dir (S k) (prefix ++ "*") = [] ->
      OutputLocator.wait_for_file_by_prefix dir clk prefix timeout stop_event
        fuel
      = Some (Raise IndexError)).
Proof.
  intros Hw. unfold OutputLocator.wait_for_file_by_prefix. rewrite Hw.
  split.
  - intros f ->. reflexivity.
  - intros ->. reflexivity.
Qed.

Lemma locator_single_or_vanished_witness :
  OutputLocator.wait_for_file_by_prefix
    (fun k => if Nat.eqb k 1 then ["/out/prefix-001"] else [])
    OutputLocator.steady_clock "/out/prefix-" 10%Z (fun _ => false) 5
  = Some (Raise IndexError).
Proof.
  destruct (locator_single_or_vanished
              (fun k => if Nat.eqb k 1 then ["/out/prefix-001"] else [])
              OutputLocator.steady_clock "/out/prefix-" 10%Z
              (fun _ => false) 5 1 eq_refl) as [_ H].
  apply H. reflexivity.
Defined.

(** ** Polling a started process *)

(** X8: [poll_process] kills the process when the stop event ends the wait,
    and only then: when the deadline passes it raises [TimeoutError] and
    leaves the process running, and when the process has exited it returns
    without touching it. *)
Theorem poll_process_kills_only_on_stop (clk : OutputLocator.clock)
  (timeout : Z) (stop_event exited : nat -> bool) (fuel : nat)
  (tr : list Polling.event) (r : result unit) :
  Polling.poll_process clk timeout stop_event exited fuel = Some (tr, r) ->
  (r = Raise StopEventSetException /\ tr = [Polling.EvKill])
  \/ (r = Raise TimeoutError /\ tr = [])
  \/ (r = Ok tt /\ tr = []).
Proof.
  unfold Polling.poll_process.
  destruct (OutputLocator.wait_event clk timeout stop_event exited fuel)
    as [[k|e]|] eqn:Hw; [| |discriminate].
  - intros H; inversion H; subst. auto.
  - apply wait_event_raise_kind in Hw as [->| ->];
      intros H; inversion H; subst; auto.
Qed.

Lemma poll_process_kills_only_on_stop_witness :
  (@Raise unit TimeoutError = Raise StopEventSetException
   /\ @nil Polling.event = [Polling.EvKill])
  \/ (@Raise unit TimeoutError = Raise TimeoutError
      /\ @nil Polling.event = [])
  \/ (@Raise unit TimeoutError = Ok tt /\ @nil Polling.event = []).
Proof.
  apply (poll_process_kills_only_on_stop OutputLocator.steady_clock 1%Z
           (fun _ => false) (fun _ => false) 5 [] (Raise TimeoutError)
           eq_refl).
Defined.

(** ** Process Supervisor, continued *)

(** The body of the [try] only communicates with the child or waits for
    it. *)
Lemma wait_phase_events (w : Supervisor.child) (clk : OutputLocator.clock)
  (a : Supervisor.run_args) (fuel : nat) (pre : list Supervisor.event)
  (r : result (option bytes * option bytes * Z)) :
  Supervisor.wait_phase w clk a fuel = Some (pre, r) ->
  Forall (fun x => x = Supervisor.EvWait
                   \/ exists t i, x = Supervisor.EvCommunicate t i) pre.
Proof.
  assert (Hloop : forall is_set et m j tr r',
            Supervisor.supervise_loop w clk a is_set et j m = Some (tr, r') ->
            Forall (fun x => x = Supervisor.EvWait
                             \/ exists t i, x = Supervisor.EvCommunicate t i)
              tr).
  { intros is_set et. induction m as [|m IH]; intros j tr r';
      simpl; [discriminate|].
    assert (Hev : forall l,
               Forall (fun x => x = Supervisor.EvWait
                                \/ exists t i, x = Supervisor.EvCommunicate t i)
                 l ->
               Forall (fun x => x = Supervisor.EvWait
                                \/ exists t i, x = Supervisor.EvCommunicate t i)
                 (Supervisor.EvCommunicate (Some 1%Z) (Supervisor.stdin a)
                    :: l)).
    { intros l Hl. constructor; [right; eauto | exact Hl]. }
    destruct (Supervisor.communicate_at w j).
    - intros H; inversion H; subst. apply Hev. constructor.
    - destruct (is_set j).
      + intros H; inversion H; subst. apply Hev. constructor.
      + destruct (match et, Supervisor.timeout a with
                  | Some et0, Some t0 =>
                      if (OutputLocator.monotonic_at clk j >? et0)%Z
                      then Some (TimeoutExpired (Supervisor.cmd a) t0)
                      else None
                  | _, _ => None
                  end).
        * intros H; inversion H; subst. apply Hev. constructor.
        * destruct (Supervisor.supervise_loop w clk a is_set et (S j) m)
            as [[tr' r'']|] eqn:E; [|discriminate].
          intros H; inversion H; subst. apply Hev. eapply IH. exact E.
    - intros H; inversion H; subst. apply Hev. constructor. }
  unfold Supervisor.wait_phase.
  destruct (Supervisor.stop_event a) as [is_set|].
  - destruct (negb (Supervisor.communicate a)).
    + intros H; inversion H; subst. constructor.
    + apply Hloop.
  - destruct (Supervisor.timeout a).
    + intros H; inversion H; subst. constructor.
    + destruct (Supervisor.communicate a).
      * destruct (Supervisor.communicate_at w 0); intros H;
          inversion H; subst; (constructor; [right; eauto | constructor]).
      * destruct (Supervisor.wait_result w); intros H;
          inversion H; subst; (constructor; [left; reflexivity | constructor]).
Qed.

Lemma completion_logs_are_logs (suppress : bool)
  (r : Supervisor.CompletedProcess) :
  Forall (fun x => exists l, x = Supervisor.EvLog l)
    (Supervisor.completion_logs suppress r).
Proof.
  unfold Supervisor.completion_logs.
  constructor; [eauto|]. destruct suppress; [constructor|].
  apply Forall_app. split.
  - destruct (Supervisor.nonempty (Supervisor.stdout r));
      [constructor; [eauto | constructor] | constructor].
  - destruct (Supervisor.nonempty (Supervisor.stderr r));
      [constructor; [eauto | constructor] | constructor].
Qed.


(** X9: [run_process] sends the child no signal but [kill_signal], and only
    when the wait has failed: a child that is left to finish is never
    signalled, and no signal is sent when the child could not be started. *)
Theorem run_process_signals_only_on_failure (w : Supervisor.child)
  (clk : OutputLocator.clock) (a : Supervisor.run_args) (fuel : nat)
  (tr : list Supervisor.event) (r : result Supervisor.CompletedProcess)
  (sig : Z) :
  Supervisor.run_process w clk a fuel = Some (tr, r) ->
  In (Supervisor.EvSendSignal sig) tr ->
  sig = Supervisor.kill_signal a
  /\ Supervisor.popen_error w = None
  /\ exists pre e,
       Supervisor.wait_phase w clk a fuel = Some (pre, Raise e)
       /\ r = Raise e.
Proof.
  unfold Supervisor.run_process.
  destruct (Supervisor.start_process w (Supervisor.cmd a)
              (Supervisor.via_staticx a)) as [argv clear_env].
  destruct (Supervisor.popen_error w) as [e0|].
  { intros H; inversion H; subst. intros [Hin|[]]. discriminate. }
  destruct (Supervisor.wait_phase w clk a fuel)
    as [[pre [[[out err] rc]|e]]|] eqn:Hw; [| |discriminate].
  - intros H Hin. exfalso.
    assert (Htr : tr = [Supervisor.EvLog
                          (Supervisor.LogRunning
                             (Supervisor.cmd_text (Supervisor.cmd a)))]
                       ++ Supervisor.EvPopen argv clear_env
                       :: pre ++ [Supervisor.EvPoll; Supervisor.EvPopenExit]
                       ++ Supervisor.completion_logs
                            (Supervisor.suppress_log a)
                            {| Supervisor.args := argv;
                               Supervisor.returncode := rc;
                               Supervisor.stdout := out;
                               Supervisor.stderr := err |}).
    { destruct (Supervisor.check a && negb (rc =? 0)%Z)%bool;
        now inversion H. }
    rewrite Htr in Hin. clear H Htr.
    apply in_app_or in Hin as [[Hin|[]]|[Hin|Hin]]; try discriminate.
    apply in_app_or in Hin as [Hin|Hin].
    + apply wait_phase_events in Hw. rewrite Forall_forall in Hw.
      destruct (Hw _ Hin) as [H|(t & i & H)]; discriminate.
    + apply in_app_or in Hin as [[Hin|[Hin|[]]]|Hin]; try discriminate.
      pose proof (completion_logs_are_logs (Supervisor.suppress_log a)
                    {| Supervisor.args := argv; Supervisor.returncode := rc;
                       Supervisor.stdout := out; Supervisor.stderr := err |})
        as Hl.
      rewrite Forall_forall in Hl. destruct (Hl _ Hin). discriminate.
  - intros H Hin. inversion H; subst. clear H.
    split; [|split; [reflexivity | exists pre, e; auto]].
    destruct Hin as [Hin|[Hin|Hin]]; try discriminate.
    apply in_app_or in Hin as [Hin|Hin].
    + apply wait_phase_events in Hw. rewrite Forall_forall in Hw.
      destruct (Hw _ Hin) as [H|(t & i & H)]; discriminate.
    + destruct Hin as [Hin|[Hin|[Hin|[]]]]; try discriminate.
      now inversion Hin.
Qed.

Lemma run_process_signals_only_on_failure_witness :
  15%Z = 15%Z
  /\ Supervisor.popen_error Supervisor.sleeping_child = None
  /\ exists pre e,
       Supervisor.wait_phase Supervisor.sleeping_child
         OutputLocator.steady_clock
         {| Supervisor.cmd := Supervisor.sleep;
            Supervisor.stop_event := Some (fun k => Nat.eqb k 0);
            Supervisor.suppress_log := false; Supervisor.via_staticx := false;
            Supervisor.check := true; Supervisor.timeout := None;
            Supervisor.kill_signal := 15%Z; Supervisor.communicate := true;
            Supervisor.stdin := None |} 3
       = Some (pre, Raise e)
       /\ @Raise Supervisor.CompletedProcess ProcessStoppedException
          = Raise e.
Proof.
  apply (run_process_signals_only_on_failure Supervisor.sleeping_child
           OutputLocator.steady_clock
           {| Supervisor.cmd := Supervisor.sleep;
              Supervisor.stop_event := Some (fun k => Nat.eqb k 0);
              Supervisor.suppress_log := false;
              Supervisor.via_staticx := false;
              Supervisor.check := true; Supervisor.timeout := None;
              Supervisor.kill_signal := 15%Z;
              Supervisor.communicate := true;
              Supervisor.stdin := None |} 3
           [Supervisor.EvLog (Supervisor.LogRunning "sleep 100");
            Supervisor.EvPopen ["sleep"; "100"] false;
            Supervisor.EvCommunicate (Some 1%Z) None;
            Supervisor.EvSendSignal 15%Z; Supervisor.EvWait;
            Supervisor.EvPopenExit]
           (Raise ProcessStoppedException) 15%Z eq_refl).
  simpl. auto 10.
Defined.

(** X10: a [CompletedProcess] that [run_process] returns carries the
    argument vector the child was started with and the status and output
    the child ended with; with [check] set, that status is zero. *)
Theorem run_process_result_status (w : Supervisor.child)
  (clk : OutputLocator.clock) (a : Supervisor.run_args) (fuel : nat)
  (tr : list Supervisor.event) (r : Supervisor.CompletedProcess) :
  Supervisor.run_process w clk a fuel = Some (tr, Ok r) ->
  (Supervisor.check a = true -> Supervisor.returncode r = 0%Z)
  /\ Supervisor.args r
     = fst (Supervisor.start_process w (Supervisor.cmd a)
              (Supervisor.via_staticx a))
  /\ exists pre,
       Supervisor.wait_phase w clk a fuel
       = Some (pre, Ok (Supervisor.stdout r, Supervisor.stderr r,
                        Supervisor.returncode r)).
Proof.
  unfold Supervisor.run_process.
  destruct (Supervisor.start_process w (Supervisor.cmd a)
              (Supervisor.via_staticx a)) as [argv clear_env].
  destruct (Supervisor.popen_error w); [discriminate|].
  destruct (Supervisor.wait_phase w clk a fuel)
    as [[pre [[[out err] rc]|e]]|]; try discriminate.
  destruct (Supervisor.check a) eqn:Hc; cbn [andb].
  - destruct (Z.eqb_spec rc 0) as [->|Hn]; cbn [negb]; [|discriminate].
    intros H; inversion H; subst; simpl. eauto.
  - intros H; inversion H; subst; simpl.
    split; [discriminate|]. eauto.
Qed.

Lemma run_process_result_status_witness :
  (Supervisor.check (Supervisor.default_args (CmdStr "true")) = true ->
   0%Z = 0%Z)
  /\ ["true"]
     = fst (Supervisor.start_process (Supervisor.exiting_child None None 0%Z)
              (CmdStr "true") false)
  /\ exists pre,
       Supervisor.wait_phase (Supervisor.exiting_child None None 0%Z)
         OutputLocator.steady_clock
         (Supervisor.default_args (CmdStr "true")) 1
       = Some (pre, Ok (None, None, 0%Z)).
Proof.
  apply (run_process_result_status (Supervisor.exiting_child None None 0%Z)
           OutputLocator.steady_clock
           (Supervisor.default_args (CmdStr "true")) 1
           [Supervisor.EvLog (Supervisor.LogRunning "true");
            Supervisor.EvPopen ["true"] false;
            Supervisor.EvCommunicate None None;
            Supervisor.EvPoll; Supervisor.EvPopenExit;
            Supervisor.EvLog (Supervisor.LogExitCode ["true"] 0)]
           {| Supervisor.args := ["true"]; Supervisor.returncode := 0%Z;
              Supervisor.stdout := None; Supervisor.stderr := None |}
           eq_refl).
Defined.



(** X12: with a stop event and a timeout, the polling loop of
    [run_process] does not outlast the deadline: once the clock reading
    taken after poll [n] is past it, the body of the [try] has ended by
    that poll, after at most [n + 1] calls of [communicate], with the
    output of a child that has exited, with what [communicate] raised, with
    [ProcessStoppedException] or with [TimeoutExpired].  What the handler
    does after a failure (the signal, and the wait for the child to end) is
    not part of this statement. *)
Theorem supervised_run_ends_by_deadline (w : Supervisor.child)
  (clk : OutputLocator.clock) (a : Supervisor.run_args)
  (is_set : nat -> bool) (t : Z) (n fuel : nat) :
  Supervisor.stop_event a = Some is_set ->
  Supervisor.communicate a = true ->
  Supervisor.timeout a = Some t ->
  (OutputLocator.monotonic_at clk n
   > OutputLocator.monotonic_start clk + t)%Z ->
  n < fuel ->
  exists pre r,
    Supervisor.wait_phase w clk a fuel = Some (pre, r)
    /\ List.length pre <= S n
    /\ (r = Raise ProcessStoppedException
        \/ r = Raise (TimeoutExpired (Supervisor.cmd a) t)
        \/ exists k,
             k <= n
             /\ ((exists out err rc,
                    Supervisor.communicate_at w k
                    = Supervisor.CommDone out err rc
                    /\ r = Ok (out, err, rc))
                 \/ (exists e,
                       Supervisor.communicate_at w k = Supervisor.CommRaises e
                       /\ r = Raise e))).
Proof.
  intros Hstop Hcomm Ht Hlate Hfuel.
  set (end_time := (OutputLocator.monotonic_start clk + t)%Z) in *.
  assert (Hloop : forall m j fuel',
             j + m = n -> m < fuel' ->
             exists pre r,
               Supervisor.supervise_loop w clk a is_set (Some end_time) j
                 fuel' = Some (pre, r)
               /\ List.length pre <= S m
               /\ (r = Raise ProcessStoppedException
                   \/ r = Raise (TimeoutExpired (Supervisor.cmd a) t)
                   \/ exists k,
                        k <= n
                        /\ ((exists out err rc,
                               Supervisor.communicate_at w k
                               = Supervisor.CommDone out err rc
                               /\ r = Ok (out, err, rc))
                            \/ (exists e,
                                  Supervisor.communicate_at w k
                                  = Supervisor.CommRaises e
                                  /\ r = Raise e)))).
  { induction m as [|m IH]; intros j fuel' Hj Hf;
      (destruct fuel' as [|fuel']; [lia|]); simpl.
    - destruct (Supervisor.communicate_at w j) as [out err rc| |e] eqn:Hc.
      + do 2 eexists. split; [reflexivity|]. split; [simpl; lia|].
        right. right. exists j. split; [lia|]. left. eauto.
      + destruct (is_set j).
        { do 2 eexists. split; [reflexivity|]. split; [simpl; lia|]. auto. }
        rewrite Ht. replace j with n in * by lia.
        destruct (Z.gtb_spec (OutputLocator.monotonic_at clk n) end_time);
          [|lia].
        do 2 eexists. split; [reflexivity|]. split; [simpl; lia|]. auto.
      + do 2 eexists. split; [reflexivity|]. split; [simpl; lia|].
        right. right. exists j. split; [lia|]. right. eauto.
    - destruct (Supervisor.communicate_at w j) as [out err rc| |e] eqn:Hc.
      + do 2 eexists. split; [reflexivity|]. split; [simpl; lia|].
        right. right. exists j. split; [lia|]. left. eauto.
      + destruct (is_set j).
        { do 2 eexists. split; [reflexivity|]. split; [simpl; lia|]. auto. }
        rewrite Ht.
        destruct (OutputLocator.monotonic_at clk j >? end_time)%Z.
        { do 2 eexists. split; [reflexivity|]. split; [simpl; lia|]. auto. }
        destruct (IH (S j) fuel' ltac:(lia) ltac:(lia))
          as (pre & r & E & Hl & Hr).
        rewrite E. do 2 eexists. split; [reflexivity|].
        split; [simpl; lia | exact Hr].
      + do 2 eexists. split; [reflexivity|]. split; [simpl; lia|].
        right. right. exists j. split; [lia|]. right. eauto. }
  destruct (Hloop n 0 fuel ltac:(lia) Hfuel) as (pre & r & Hw & Hlen & Hr).
  exists pre, r. split; [|split; assumption].
  unfold Supervisor.wait_phase. rewrite Hstop, Hcomm, Ht. exact Hw.
Qed.

Lemma supervised_run_ends_by_deadline_witness :
  exists pre r,
    Supervisor.wait_phase Supervisor.sleeping_child
      OutputLocator.steady_clock
      {| Supervisor.cmd := Supervisor.sleep;
         Supervisor.stop_event := Some (fun _ => false);
         Supervisor.suppress_log := false; Supervisor.via_staticx := false;
         Supervisor.check := true; Supervisor.timeout := Some 2%Z;
         Supervisor.kill_signal := 9%Z; Supervisor.communicate := true;
         Supervisor.stdin := None |} 10
    = Some (pre, r)
    /\ List.length pre <= 3
    /\ (r = Raise ProcessStoppedException
        \/ r = Raise (TimeoutExpired Supervisor.sleep 2%Z)
        \/ exists k,
             k <= 2
             /\ ((exists out err rc,
                    Supervisor.communicate_at Supervisor.sleeping_child k
                    = Supervisor.CommDone out err rc
                    /\ r = Ok (out, err, rc))
                 \/ (exists e,
                       Supervisor.communicate_at Supervisor.sleeping_child k
                       = Supervisor.CommRaises e
                       /\ r = Raise e))).
Proof.
  apply (supervised_run_ends_by_deadline Supervisor.sleeping_child
           OutputLocator.steady_clock
           {| Supervisor.cmd := Supervisor.sleep;
              Supervisor.stop_event := Some (fun _ => false);
              Supervisor.suppress_log := false;
              Supervisor.via_staticx := false;
              Supervisor.check := true; Supervisor.timeout := Some 2%Z;
              Supervisor.kill_signal := 9%Z;
              Supervisor.communicate := true;
              Supervisor.stdin := None |}
           (fun _ => false) 2%Z 2 10 eq_refl eq_refl eq_refl).
  - reflexivity.
  - lia.
Defined.

(** ** Namespace Executor, continued *)

(** ** Namespace Executor, continued *)

(** What the switching loop leaves: a trace of joins; on success every
    [unshare] was followed by its [setns], and the kinds joined are those of
    the trace, each one of the kinds asked for. *)
Lemma switch_shape (k : NamespaceExecutor.kernel) (target_pid : Z)
  (nstypes : list string) :
  forall joined,
    NamespaceTraces.joins
      (fst (NamespaceExecutor.switch k target_pid nstypes joined))
    /\ forall joined',
         snd (NamespaceExecutor.switch k target_pid nstypes joined)
         = Ok joined' ->
         joined'
         = joined
             ++ NamespaceTraces.setns_kinds
                  (fst (NamespaceExecutor.switch k target_pid nstypes joined))
         /\ incl (NamespaceTraces.setns_kinds
                    (fst (NamespaceExecutor.switch k target_pid nstypes
                            joined))) nstypes.
Proof.
  induction nstypes as [|ns rest IH]; intros joined; simpl.
  - split; [constructor|]. intros j H; inversion H; subst.
    split; [now rewrite app_nil_r | intros x []].
  - destruct (NamespaceExecutor.is_same_ns k joined target_pid ns)
      as [[|]|e].
    + destruct (IH joined) as [Hj Hs]. split; [exact Hj|].
      intros j H. destruct (Hs j H) as [E Hi]. split; [exact E|].
      intros x Hx. right. now apply Hi.
    + destruct (NamespaceExecutor.clone_flag ns) as [flag|e] eqn:Ef;
        [|split; [constructor | discriminate]].
      destruct (negb (NamespaceExecutor.unshare k joined flag =? 0)%Z);
        [split; [now constructor | discriminate]|].
      destruct (NamespaceExecutor.open_ns k joined
                  (NamespaceExecutor.ns_path target_pid ns));
        [split; [now constructor | discriminate]|].
      destruct (negb (NamespaceExecutor.setns k joined
                        (NamespaceExecutor.ns_path target_pid ns) flag
                      =? 0)%Z).
      { split; [|discriminate].
        apply NamespaceTraces.joins_cons; [exact Ef | constructor]. }
      destruct (IH (joined ++ [ns])) as [Hj Hs].
      destruct (NamespaceExecutor.switch k target_pid rest (joined ++ [ns]))
        as [tr r]. simpl in *.
      split; [now apply NamespaceTraces.joins_cons|].
      intros j H. destruct (Hs j H) as [E Hi].
      split; [now rewrite E, <- app_assoc|].
      intros x [<-|Hx]; [now left | right; now apply Hi].
    + split; [constructor | discriminate].
Qed.

(** X13: a value other than [None] returned by [run_in_ns] shows that all
    went well: the switching loop ended without an exception, the callback
    ran after it, in the namespaces joined, and returned that value. *)
Theorem run_in_ns_value_means_success (T : Type)
  (k : NamespaceExecutor.kernel) (nstypes : list string)
  (callback : @NamespaceExecutor.callback_t T) (target_pid : Z) (v : T) :
  NamespaceExecutor.ret
    (NamespaceExecutor.run_in_ns k nstypes callback target_pid) = Some v ->
  exists tr joined,
    NamespaceExecutor.switch k target_pid
      (NamespaceExecutor.order_nstypes nstypes) [] = (tr, Ok joined)
    /\ callback joined = Ok (Some v)
    /\ NamespaceExecutor.run_in_ns k nstypes callback target_pid
       = {| NamespaceExecutor.trace := tr ++ [NamespaceExecutor.EvCallback];
            NamespaceExecutor.uncaught := None;
            NamespaceExecutor.ret := Some v |}.
Proof.
  unfold NamespaceExecutor.run_in_ns.
  destruct (NamespaceExecutor.switch k target_pid
              (NamespaceExecutor.order_nstypes nstypes) [])
    as [tr [joined|e]]; [|discriminate].
  destruct (callback joined) as [v'|e] eqn:Hc; [|discriminate].
  simpl. intros ->. exists tr, joined. auto.
Qed.

Lemma run_in_ns_value_means_success_witness :
  exists tr joined,
    NamespaceExecutor.switch NamespaceExecutor.privileged_kernel 1%Z
      (NamespaceExecutor.order_nstypes ["mnt"; "net"]) [] = (tr, Ok joined)
    /\ (fun j : list string => Ok (Some (List.length j))) joined
       = Ok (Some 2)
    /\ NamespaceExecutor.run_in_ns NamespaceExecutor.privileged_kernel
         ["mnt"; "net"] (fun j => Ok (Some (List.length j))) 1%Z
       = {| NamespaceExecutor.trace := tr ++ [NamespaceExecutor.EvCallback];
            NamespaceExecutor.uncaught := None;
            NamespaceExecutor.ret := Some 2 |}.
Proof.
  apply (run_in_ns_value_means_success nat
           NamespaceExecutor.privileged_kernel ["mnt"; "net"]
           (fun j => Ok (Some (List.length j))) 1%Z 2 eq_refl).
Defined.

(** X14: the events of a call are joins, each [setns] coming right after
    the [unshare] of the same kind with the flag of that kind, followed by
    at most one run of the callback, which is the last event. *)
Theorem run_in_ns_trace_shape (T : Type) (k : NamespaceExecutor.kernel)
  (nstypes : list string) (callback : @NamespaceExecutor.callback_t T)
  (target_pid : Z) :
  exists tr,
    NamespaceTraces.joins tr
    /\ (NamespaceExecutor.trace
          (NamespaceExecutor.run_in_ns k nstypes callback target_pid) = tr
        \/ NamespaceExecutor.trace
             (NamespaceExecutor.run_in_ns k nstypes callback target_pid)
           = tr ++ [NamespaceExecutor.EvCallback]).
Proof.
  unfold NamespaceExecutor.run_in_ns.
  destruct (switch_shape k target_pid
              (NamespaceExecutor.order_nstypes nstypes) []) as [Hj _].
  destruct (NamespaceExecutor.switch k target_pid
              (NamespaceExecutor.order_nstypes nstypes) [])
    as [tr [joined|e]]; simpl in Hj; exists tr; (split; [exact Hj|]).
  - right. now destruct (callback joined).
  - now left.
Qed.

(** X15: when the callback runs, it runs in exactly the namespaces that the
    trace shows as joined, all of them kinds that were asked for, and its
    outcome decides what the caller gets: its value, or [None] when it
    raised. *)
Theorem run_in_ns_callback_sees_joined (T : Type)
  (k : NamespaceExecutor.kernel) (nstypes : list string)
  (callback : @NamespaceExecutor.callback_t T) (target_pid : Z) :
  In NamespaceExecutor.EvCallback
    (NamespaceExecutor.trace
       (NamespaceExecutor.run_in_ns k nstypes callback target_pid)) ->
  exists tr,
    NamespaceExecutor.trace
      (NamespaceExecutor.run_in_ns k nstypes callback target_pid)
    = tr ++ [NamespaceExecutor.EvCallback]
    /\ incl (NamespaceTraces.setns_kinds tr) nstypes
    /\ match callback (NamespaceTraces.setns_kinds tr) with
       | Ok v =>
           NamespaceExecutor.ret
             (NamespaceExecutor.run_in_ns k nstypes callback target_pid) = v
           /\ NamespaceExecutor.uncaught
                (NamespaceExecutor.run_in_ns k nstypes callback target_pid)
              = None
       | Raise e =>
           NamespaceExecutor.ret
             (NamespaceExecutor.run_in_ns k nstypes callback target_pid)
           = None
           /\ NamespaceExecutor.uncaught
                (NamespaceExecutor.run_in_ns k nstypes callback target_pid)
              = Some e
       end.
Proof.
  unfold NamespaceExecutor.run_in_ns.
  destruct (switch_shape k target_pid
              (NamespaceExecutor.order_nstypes nstypes) []) as [_ Hs].
  pose proof (switch_no_callback k target_pid
                (NamespaceExecutor.order_nstypes nstypes) []) as Hn.
  destruct (NamespaceExecutor.switch k target_pid
              (NamespaceExecutor.order_nstypes nstypes) [])
    as [tr [joined|e]]; simpl in *.
  - destruct (Hs joined eq_refl) as [-> Hi]. intros _. exists tr.
    assert (Hincl : incl (NamespaceTraces.setns_kinds tr) nstypes).
    { intros x Hx. eapply Permutation_in;
        [apply Permutation_sym, order_nstypes_perm | now apply Hi]. }
    destruct (callback (NamespaceTraces.setns_kinds tr)) as [v|e];
      simpl; auto.
  - intros Hin. contradiction.
Qed.

Lemma run_in_ns_callback_sees_joined_witness :
  exists tr,
    NamespaceExecutor.trace
      (NamespaceExecutor.run_in_ns NamespaceExecutor.privileged_kernel
         ["mnt"; "net"] (fun j => Ok (Some j)) 1%Z)
    = tr ++ [NamespaceExecutor.EvCallback]
    /\ incl (NamespaceTraces.setns_kinds tr) ["mnt"; "net"]
    /\ NamespaceExecutor.ret
         (NamespaceExecutor.run_in_ns NamespaceExecutor.privileged_kernel
            ["mnt"; "net"] (fun j => Ok (Some j)) 1%Z)
       = Some (NamespaceTraces.setns_kinds tr)
    /\ NamespaceExecutor.uncaught
         (NamespaceExecutor.run_in_ns NamespaceExecutor.privileged_kernel
            ["mnt"; "net"] (fun j => Ok (Some j)) 1%Z)
       = None.
Proof.
  destruct (run_in_ns_callback_sees_joined (list string)
              NamespaceExecutor.privileged_kernel ["mnt"; "net"]
              (fun j => Ok (Some j)) 1%Z) as (tr & Ht & Hi & Hr).
  - simpl. auto 10.
  - exists tr. split; [exact Ht|]. split; [exact Hi|]. exact Hr.
Defined.

Lemma filter_neg_filter {A : Type} (f : A -> bool) (l : list A) :
  filter f (filter (fun x => negb (f x)) l) = [].
Proof.
  induction l as [|x l IH]; simpl; [reflexivity|].
  destruct (f x) eqn:E; simpl; [exact IH | now rewrite E].
Qed.

(** X16: the reordering settles at once: a list that is already ordered, or
    that has no ["mnt"] entry, is left as it is, so a caller that passes the
    kinds with ["mnt"] last gets the joins in the order it wrote them, and
    ordering the list beforehand changes nothing of a call. *)
Theorem order_nstypes_settles (nstypes : list string) :
  let other := fun ns => negb (NamespaceExecutor.is_mnt ns) in
  NamespaceExecutor.order_nstypes (NamespaceExecutor.order_nstypes nstypes)
  = NamespaceExecutor.order_nstypes nstypes
  /\ NamespaceExecutor.order_nstypes (filter other nstypes)
     = filter other nstypes
  /\ forall (T : Type) (k : NamespaceExecutor.kernel)
       (callback : @NamespaceExecutor.callback_t T) (target_pid : Z),
       NamespaceExecutor.run_in_ns k
         (NamespaceExecutor.order_nstypes nstypes) callback target_pid
       = NamespaceExecutor.run_in_ns k nstypes callback target_pid.
Proof.
  intros other. subst other.
  assert (Hidem : NamespaceExecutor.order_nstypes
                    (NamespaceExecutor.order_nstypes nstypes)
                  = NamespaceExecutor.order_nstypes nstypes).
  { rewrite (order_nstypes_partition (NamespaceExecutor.order_nstypes nstypes)).
    rewrite (order_nstypes_partition nstypes), !filter_app.
    rewrite (filter_filter_same (fun ns => negb (NamespaceExecutor.is_mnt ns))).
    rewrite (filter_filter_neg NamespaceExecutor.is_mnt nstypes).
    rewrite (filter_neg_filter NamespaceExecutor.is_mnt nstypes).
    rewrite (filter_filter_same NamespaceExecutor.is_mnt).
    now rewrite app_nil_r. }
  split; [exact Hidem|]. split.
  - rewrite order_nstypes_partition.
    rewrite (filter_filter_same (fun ns => negb (NamespaceExecutor.is_mnt ns))).
    rewrite (filter_neg_filter NamespaceExecutor.is_mnt nstypes).
    apply app_nil_r.
  - intros T k callback target_pid. unfold NamespaceExecutor.run_in_ns.
    now rewrite Hidem.
Qed.

(** ** System Mutex, continued *)

(** X17: [grab_gprofiler_mutex] never raises.  It returns [True] exactly
    when it stores a bound socket in the global [gprofiler_mutex], a socket
    with its close-on-exec flag set, and then it prints nothing; otherwise
    it prints one of its two messages and leaves the global as it was, so
    that a socket stored by an earlier call stays held after a later call
    has failed. *)
Theorem grab_gprofiler_mutex_outcomes (global : option SystemMutex.socket)
  (k : NamespaceExecutor.kernel) (bind_errno : SystemMutex.bind_oracle) :
  exists g,
    SystemMutex.grab_gprofiler_mutex_from global k bind_errno = Ok g
    /\ ((SystemMutex.acquired g = true
         /\ SystemMutex.gprofiler_mutex g
            = Some {| SystemMutex.cloexec := true |}
         /\ SystemMutex.printed g = None)
        \/ (SystemMutex.acquired g = false
            /\ SystemMutex.gprofiler_mutex g = global
            /\ (SystemMutex.printed g = Some SystemMutex.msg_error
                \/ SystemMutex.printed g = Some SystemMutex.msg_locked)))
    /\ exists g0,
         SystemMutex.grab_gprofiler_mutex k bind_errno = Ok g0
         /\ SystemMutex.acquired g0 = SystemMutex.acquired g
         /\ SystemMutex.printed g0 = SystemMutex.printed g.
Proof.
  unfold SystemMutex.grab_gprofiler_mutex_from,
    SystemMutex.grab_gprofiler_mutex, NamespaceExecutor.run_in_ns.
  destruct (NamespaceExecutor.switch k 1%Z
              (NamespaceExecutor.order_nstypes ["net"]) [])
    as [tr [joined|e]]; simpl.
  - unfold SystemMutex._take_lock.
    destruct (bind_errno joined) as [errno|]; simpl.
    + destruct (negb (errno =? SystemMutex.EADDRINUSE)%Z); simpl;
        eexists; (split; [reflexivity|]);
        (split; [right; simpl; auto | eexists; simpl; auto]).
    + eexists. split; [reflexivity|].
      split; [left; simpl; auto | eexists; simpl; auto].
  - eexists. split; [reflexivity|].
    split; [right; simpl; auto | eexists; simpl; auto].
Qed.

(** X18: when the lock is taken and when it is reported as held.  The lock
    is taken exactly when the switch to the network namespace of the init
    process ended well and [bind] succeeded there; it is reported as held
    by another process exactly when the switch ended well and [bind] failed
    there with [EADDRINUSE]. *)
Theorem grab_gprofiler_mutex_causes (k : NamespaceExecutor.kernel)
  (bind_errno : SystemMutex.bind_oracle) (g : SystemMutex.grabbed) :
  SystemMutex.grab_gprofiler_mutex k bind_errno = Ok g ->
  (SystemMutex.acquired g = true <->
   exists tr joined,
     NamespaceExecutor.switch k 1%Z ["net"] [] = (tr, Ok joined)
     /\ bind_errno joined = None)
  /\ (SystemMutex.printed g = Some SystemMutex.msg_locked <->
      exists tr joined,
        NamespaceExecutor.switch k 1%Z ["net"] [] = (tr, Ok joined)
        /\ bind_errno joined = Some SystemMutex.EADDRINUSE).
Proof.
  unfold SystemMutex.grab_gprofiler_mutex, NamespaceExecutor.run_in_ns.
  change (NamespaceExecutor.order_nstypes ["net"]) with ["net"].
  destruct (NamespaceExecutor.switch k 1%Z ["net"] [])
    as [tr [joined|e]]; simpl.
  - unfold SystemMutex._take_lock.
    destruct (bind_errno joined) as [errno|] eqn:Hb; simpl.
    + destruct (Z.eqb_spec errno SystemMutex.EADDRINUSE) as [->|Hne];
        simpl; intros H; inversion H; subst; simpl; split; split;
        try discriminate; try (intros (tr' & j' & E & Hb'); inversion E;
                               subst; congruence).
      intros _. exists tr, joined. auto.
    + intros H; inversion H; subst; simpl. split; split;
        try discriminate; try (intros (tr' & j' & E & Hb'); inversion E;
                               subst; congruence).
      intros _. exists tr, joined. auto.
  - intros H; inversion H; subst; simpl. split; split; try discriminate;
      intros (tr' & j' & E & _); discriminate.
Qed.

Lemma grab_gprofiler_mutex_causes_witness :
  (true = true <->
   exists tr joined,
     NamespaceExecutor.switch NamespaceExecutor.privileged_kernel 1%Z
       ["net"] [] = (tr, Ok joined)
     /\ (fun _ : list string => @None Z) joined = None)
  /\ (@None string = Some SystemMutex.msg_locked <->
      exists tr joined,
        NamespaceExecutor.switch NamespaceExecutor.privileged_kernel 1%Z
          ["net"] [] = (tr, Ok joined)
        /\ (fun _ : list string => @None Z) joined
           = Some SystemMutex.EADDRINUSE).
Proof.
  apply (grab_gprofiler_mutex_causes NamespaceExecutor.privileged_kernel
           (fun _ => None)
           {| SystemMutex.acquired := true; SystemMutex.printed := None;
              SystemMutex.gprofiler_mutex :=
                Some {| SystemMutex.cloexec := true |} |} eq_refl).
Defined.

(** ** Small helpers *)

Lemma drop_app (p r : string) : Helpers.drop (String.length p) (p ++ r) = r.
Proof. induction p as [|c p IH]; simpl; [now destruct r | exact IH]. Qed.

(** X19: [remove_prefix] undoes the prepending of the prefix, and what it
    returns, put after the prefix, gives the string back; it raises an
    [AssertionError] exactly when the string does not start with the
    prefix. *)
Theorem remove_prefix_round_trip (s prefix : string) :
  Helpers.remove_prefix (prefix ++ s) prefix = Ok s
  /\ match Helpers.remove_prefix s prefix with
     | Ok r => s = (prefix ++ r)%string
     | Raise e =>
         String.prefix prefix s = false
         /\ e = AssertionError (s ++ " doesn't start with " ++ prefix)
     end.
Proof.
  unfold Helpers.remove_prefix. split.
  - now rewrite prefix_app, drop_app.
  - destruct (String.prefix prefix s) eqn:E; [|auto].
    apply prefix_iff_app in E as [r ->]. now rewrite drop_app.
Qed.

(** X20: [limit_frequency] returns the smaller of the requested frequency
    and the limit, and warns exactly when the request was above the limit;
    without a limit the request is returned as it is; a frequency that has
    been limited passes a second time unchanged and without a warning. *)
Theorem limit_frequency_is_min (l requested : Z) :
  fst (Helpers.limit_frequency (Some l) requested) = Z.min requested l
  /\ ((snd (Helpers.limit_frequency (Some l) requested)
       = Some (requested, l) /\ (l < requested)%Z)
      \/ (snd (Helpers.limit_frequency (Some l) requested) = None
          /\ (requested <= l)%Z))
  /\ Helpers.limit_frequency None requested = (requested, None)
  /\ Helpers.limit_frequency (Some l)
       (fst (Helpers.limit_frequency (Some l) requested))
     = (Z.min requested l, None).
Proof.
  unfold Helpers.limit_frequency.
  destruct (Z.gtb_spec requested l) as [H|H]; simpl.
  - repeat split; try lia.
    + left. split; [reflexivity | lia].
    + destruct (Z.gtb_spec l l); [lia|]. f_equal. lia.
  - repeat split; try lia.
    + right. split; [reflexivity | lia].
    + destruct (Z.gtb_spec requested l); [lia|]. f_equal. lia.
Qed.

(** X21: whatever the random source draws, [random_prefix] is a string of
    exactly 16 characters, each of them an ASCII letter. *)
Theorem random_prefix_is_16_letters (draws : nat -> nat) :
  String.length (Helpers.random_prefix draws) = 16
  /\ Forall (fun c => In c Helpers.ascii_letters)
       (list_ascii_of_string (Helpers.random_prefix draws)).
Proof.
  unfold Helpers.random_prefix. split.
  - reflexivity.
  - rewrite list_ascii_of_string_of_list_ascii.
    apply Forall_forall. intros c Hc. apply in_map_iff in Hc as [i [<- _]].
    unfold Helpers.choice. apply nth_In.
    apply Nat.mod_upper_bound. discriminate.
Qed.

(** [split] is undone by joining with the separator, and its fields hold no
    separator. *)
Lemma split_nonempty (c : ascii) (s : string) : split c s <> [].
Proof.
  destruct s as [|x s]; simpl; [discriminate|].
  destruct (Ascii.eqb x c); [discriminate|].
  destruct (split c s); discriminate.
Qed.

Lemma concat_split (s : string) :
  String.concat "/" (split sep s) = s.
Proof.
  induction s as [|x s IH]; [reflexivity|].
  simpl. destruct (Ascii.eqb_spec x sep) as [->|Hne].
  - pose proof (split_nonempty sep s) as Hn.
    destruct (split sep s) as [|w ws]; [congruence|].
    change (String.concat "/" ("" :: w :: ws))
      with ("/" ++ String.concat "/" (w :: ws))%string.
    now rewrite IH.
  - pose proof (split_nonempty sep s) as Hn.
    destruct (split sep s) as [|w ws]; [congruence|].
    destruct ws as [|w' ws].
    + simpl in *. now rewrite IH.
    + change (String.concat "/" (String x w :: w' :: ws))
        with (String x (w ++ "/" ++ String.concat "/" (w' :: ws)))%string.
      f_equal. exact IH.
Qed.

Lemma split_no_sep (s : string) :
  Forall (fun w => OutputLocator.no_sep w = true) (split sep s).
Proof.
  induction s as [|x s IH]; simpl.
  - repeat constructor.
  - destruct (Ascii.eqb x sep) eqn:E.
    + constructor; [reflexivity | exact IH].
    + pose proof (split_nonempty sep s) as Hn.
      destruct (split sep s) as [|w ws]; [congruence|].
      inversion IH; subst. constructor; [|assumption].
      simpl. now rewrite E.
Qed.

(** X22: [resource_path] loses nothing of the relative path: the directory
    names and the resource name it looks up hold no slash, and joined with
    slashes they give the relative path back; the package it looks in is
    [gprofiler.resources] followed by the directory names. *)
Theorem resource_location_is_lossless (relative_path : string) :
  let '(relative_directory, basename) :=
    Helpers.resource_location relative_path in
  String.concat "/" (relative_directory ++ [basename]) = relative_path
  /\ OutputLocator.no_sep basename = true
  /\ Forall (fun d => OutputLocator.no_sep d = true) relative_directory
  /\ Helpers.resource_package relative_directory
     = String.concat "." ("gprofiler" :: "resources" :: relative_directory)
  /\ forall lookup,
       Helpers.resource_path lookup relative_path
       = match lookup (Helpers.resource_package relative_directory)
                 basename with
         | Some path => Ok path
         | None => Raise (OtherException "Exception")
         end.
Proof.
  unfold Helpers.resource_path, Helpers.resource_location.
  pose proof (split_nonempty sep relative_path) as Hn.
  pose proof (split_no_sep relative_path) as Hs.
  pose proof (concat_split relative_path) as Hc.
  rewrite (app_removelast_last "" Hn) in Hs, Hc.
  apply Forall_app in Hs as [Hd Hb]. inversion Hb; subst.
  repeat split; auto.
Qed.


(** ** The cache of installed programs *)

Lemma existsb_eqb_In (p : string) (l : list string) :
  existsb (String.eqb p) l = true <-> In p l.
Proof.
  rewrite existsb_exists. split.
  - intros [x [Hx E]]. apply String.eqb_eq in E. now subst.
  - intros H. exists p. split; [exact H | apply String.eqb_refl].
Qed.

(** One call: the cache grows by the program at most, keeps naming each
    program once, and gains the program only when [shutil.which] found
    it. *)
Lemma assert_program_installed_cache (which : string -> bool)
  (program : string) (cache : list string) :
  let cache' :=
    fst (fst (ProgramCache.assert_program_installed which program cache)) in
  incl cache cache'
  /\ (NoDup cache -> NoDup cache')
  /\ (forall p, In p cache' ->
                In p cache \/ (p = program /\ which program = true)).
Proof.
  unfold ProgramCache.assert_program_installed.
  destruct (existsb (String.eqb program) cache) eqn:E; simpl.
  - repeat split; auto. intros p Hp; exact Hp.
  - destruct (which program) eqn:W; simpl.
    + repeat split.
      * intros p Hp. apply in_or_app. now left.
      * intros Hnd. apply NoDup_app.
        -- exact Hnd.
        -- repeat constructor. intros [].
        -- intros x Hx [<-|[]].
           apply existsb_eqb_In in Hx. congruence.
      * intros p Hp. apply in_app_or in Hp as [Hp|[<-|[]]]; auto.
    + repeat split; auto. intros p Hp; exact Hp.
Qed.

(** X23: over any sequence of calls of [assert_program_installed], whatever
    [shutil.which] answers at each of them, the cache only grows, it never
    names a program twice, and every program in it was either there before
    or found by [shutil.which] in one of the calls. *)
Theorem program_cache_invariants
  (calls : list ((string -> bool) * string)) (cache : list string) :
  NoDup cache ->
  incl cache (ProgramCache.assert_programs calls cache)
  /\ NoDup (ProgramCache.assert_programs calls cache)
  /\ forall p, In p (ProgramCache.assert_programs calls cache) ->
       In p cache
       \/ exists which, In (which, p) calls /\ which p = true.
Proof.
  revert cache. induction calls as [|[which q] rest IH]; intros cache Hnd.
  - simpl. repeat split; auto. intros p Hp; exact Hp.
  - cbn [ProgramCache.assert_programs].
    destruct (assert_program_installed_cache which q cache)
      as (Hi & Hn & Ho).
    destruct (IH _ (Hn Hnd)) as (Hi' & Hn' & Ho').
    repeat split.
    + intros p Hp. apply Hi', Hi, Hp.
    + exact Hn'.
    + intros p Hp. destruct (Ho' p Hp) as [Hc|(w & Hw & Hf)].
      * destruct (Ho p Hc) as [Hc'|[-> Hf]]; [now left|].
        right. exists which. split; [now left | exact Hf].
      * right. exists w. split; [now right | exact Hf].
Qed.

Lemma program_cache_invariants_witness :
  incl ["perf"]
    (ProgramCache.assert_programs
       [(fun _ => true, "java"); (fun _ => false, "php");
        (fun _ => true, "java")] ["perf"])
  /\ NoDup (ProgramCache.assert_programs
              [(fun _ => true, "java"); (fun _ => false, "php");
               (fun _ => true, "java")] ["perf"])
  /\ forall p,
       In p (ProgramCache.assert_programs
               [(fun _ => true, "java"); (fun _ => false, "php");
                (fun _ => true, "java")] ["perf"]) ->
       In p ["perf"]
       \/ exists which,
            In (which, p)
              [(fun _ : string => true, "java"); (fun _ => false, "php");
               (fun _ => true, "java")]
            /\ which p = true.
Proof.
  apply (program_cache_invariants
           [(fun _ => true, "java"); (fun _ => false, "php");
            (fun _ => true, "java")] ["perf"]).
  repeat constructor. intros [].
Defined.

(** X24: a program that has passed the check once passes it ever after
    without [shutil.which] being asked again, also when the program has
    been removed in the meantime; a failed check leaves the cache as it
    was, so the next call asks again. *)
Theorem program_cache_is_never_rechecked (which which' : string -> bool)
  (program : string) (cache : list string) :
  match ProgramCache.assert_program_installed which program cache with
  | (cache', _, ProgramCache.Installed) =>
      ProgramCache.assert_program_installed which' program cache'
      = (cache', false, ProgramCache.Installed)
  | (cache', consulted, ProgramCache.ProgramMissingException p) =>
      cache' = cache /\ consulted = true /\ p = program
      /\ which program = false
      /\ ProgramCache.assert_program_installed which' program cache'
         = if which' program
           then (cache ++ [program], true, ProgramCache.Installed)
           else (cache, true, ProgramCache.ProgramMissingException program)
  end.
Proof.
  unfold ProgramCache.assert_program_installed.
  destruct (existsb (String.eqb program) cache) eqn:E.
  - now rewrite E.
  - destruct (which program) eqn:W.
    + rewrite existsb_app. simpl. rewrite String.eqb_refl.
      now rewrite orb_true_r.
    + rewrite E. auto.
Qed.

(** ** Path Resolver, continued *)

(** X28: the resolver returns no path for an input that is not absolute.
    For a path that does not start with a slash it raises [IndexError] when
    every field between slashes is empty or ["."] (the path has no
    component: [""], ["."], ["./."]), and [AssertionError] in every other
    case; for the same path behind exactly two slashes, whose root is
    ["//"], it raises [AssertionError]. *)
Theorem resolve_refuses_non_absolute (fs : PathResolver.filesystem)
  (proc_root ns_path : string) :
  startswith_char ns_path sep = false ->
  (if forallb (fun w => negb (PathResolver.keep_component w))
        (split sep ns_path)
   then PathResolver.resolve_proc_root_links fs proc_root ns_path
        = Raise IndexError
   else exists msg,
          PathResolver.resolve_proc_root_links fs proc_root ns_path
          = Raise (AssertionError msg))
  /\ exists msg,
       PathResolver.resolve_proc_root_links fs proc_root ("//" ++ ns_path)
       = Raise (AssertionError msg).
Proof.
  intros H. split.
  - assert (Hf : forall l,
               forallb (fun w => negb (PathResolver.keep_component w)) l
               = match filter PathResolver.keep_component l with
                 | [] => true
                 | _ => false
                 end).
    { induction l as [|x l IH]; [reflexivity|]. simpl.
      destruct (PathResolver.keep_component x); [reflexivity | exact IH]. }
    rewrite Hf.
    unfold PathResolver.resolve_proc_root_links, PathResolver.parts,
      PathResolver.splitroot.
    destruct (String.eqb_spec ns_path "") as [->|Hne]; [reflexivity|].
    rewrite H. cbn [String.eqb].
    pose proof (split_no_leading_sep sep ns_path) as Hs.
    destruct (filter PathResolver.keep_component (split sep ns_path))
      as [|p0 rest] eqn:E; [reflexivity|].
    assert (Hin : In p0 (split sep ns_path)).
    { eapply proj1. apply filter_In. rewrite E. now left. }
    rewrite Forall_forall in Hs. specialize (Hs _ Hin).
    destruct (String.eqb_spec p0 "/") as [->|_]; [discriminate|].
    eexists. reflexivity.
  - assert (Hl : lstrip sep ("//" ++ ns_path) = ns_path).
    { simpl. destruct ns_path as [|c s]; [reflexivity|].
      simpl in *. now rewrite H. }
    unfold PathResolver.resolve_proc_root_links, PathResolver.parts,
      PathResolver.splitroot.
    change (("//" ++ ns_path) =? "")%string with false.
    change (startswith_char ("//" ++ ns_path) sep) with true.
    cbv iota. rewrite Hl.
    replace (String.length ("//" ++ ns_path) - String.length ns_path)
      with 2
      by (change (String.length ("//" ++ ns_path))
            with (S (S (String.length ns_path))); lia).
    eexists. reflexivity.
Qed.

Lemma resolve_refuses_non_absolute_witness :
  (exists msg,
      PathResolver.resolve_proc_root_links (PathResolver.one_link_fs "/r")
        "/r" "abs/file" = Raise (AssertionError msg))
  /\ PathResolver.resolve_proc_root_links (PathResolver.one_link_fs "/r")
       "/r" "./." = Raise IndexError
  /\ exists msg,
       PathResolver.resolve_proc_root_links (PathResolver.one_link_fs "/r")
         "/r" ("//" ++ "abs/file") = Raise (AssertionError msg).
Proof.
  destruct (resolve_refuses_non_absolute (PathResolver.one_link_fs "/r")
              "/r" "abs/file" eq_refl) as [H1 H2].
  destruct (resolve_refuses_non_absolute (PathResolver.one_link_fs "/r")
              "/r" "./." eq_refl) as [H3 _].
  split; [exact H1|]. split; [exact H3 | exact H2].
Defined.

(** A component: not empty, not ["."], without a slash. *)
Lemma split_single (w : string) :
  OutputLocator.no_sep w = true -> split sep w = [w].
Proof.
  induction w as [|c w IH]; [reflexivity|].
  simpl. intros H. apply andb_true_iff in H as [Hc Hw].
  apply negb_true_iff in Hc. rewrite Hc, (IH Hw). reflexivity.
Qed.

Lemma split_app_sep (w rest : string) :
  OutputLocator.no_sep w = true ->
  split sep (w ++ String sep rest) = w :: split sep rest.
Proof.
  induction w as [|c w IH]; intros H.
  - simpl. reflexivity.
  - simpl in H. apply andb_true_iff in H as [Hc Hw].
    apply negb_true_iff in Hc.
    change (String c w ++ String sep rest)%string
      with (String c (w ++ String sep rest)).
    cbn [split]. rewrite Hc, (IH Hw). reflexivity.
Qed.

(** Splitting undoes the joining of components. *)
Lemma split_concat (comps : list string) :
  comps <> [] ->
  Forall (fun w => OutputLocator.no_sep w = true) comps ->
  split sep (String.concat "/" comps) = comps.
Proof.
  induction comps as [|w rest IH]; [congruence|].
  intros _ Hall. inversion Hall as [|? ? Hw Hrest]; subst.
  destruct rest as [|w' rest].
  - simpl. now apply split_single.
  - change (String.concat "/" (w :: w' :: rest))
      with (w ++ String sep (String.concat "/" (w' :: rest)))%string.
    rewrite (split_app_sep _ _ Hw). f_equal.
    apply IH; [discriminate | exact Hrest].
Qed.

Lemma endswith_char_app (a c : string) (x : ascii) :
  c <> ""%string -> endswith_char (a ++ c) x = endswith_char c x.
Proof.
  intros Hc. induction a as [|y a IH]; [reflexivity|].
  simpl. destruct (a ++ c)%string eqn:E; [|exact IH].
  destruct a; [simpl in E; congruence | discriminate].
Qed.

Lemma no_sep_endswith (c : string) :
  OutputLocator.no_sep c = true -> endswith_char c sep = false.
Proof.
  induction c as [|x c IH]; [reflexivity|].
  simpl. intros H. apply andb_true_iff in H as [Hx Hc].
  apply negb_true_iff in Hx.
  destruct c; [exact Hx | now apply IH].
Qed.

Lemma no_sep_startswith (c : string) :
  OutputLocator.no_sep c = true -> startswith_char c sep = false.
Proof.
  destruct c as [|x c]; [reflexivity|].
  simpl. intros H. apply andb_true_iff in H as [Hx _].
  now apply negb_true_iff in Hx.
Qed.

Lemma filter_all {A : Type} (f : A -> bool) (l : list A) :
  Forall (fun x => f x = true) l -> filter f l = l.
Proof.
  induction 1 as [|x l Hx _ IH]; simpl; [reflexivity|].
  now rewrite Hx, IH.
Qed.

(** Without symbolic links the loop of the resolver joins the components
    to the path, one slash between two. *)
Lemma resolve_loop_plain (fs : PathResolver.filesystem) (B : string)
  (comps : list string) :
  (forall p, PathResolver.symlink fs p = None) ->
  Forall (fun c => PathResolver.keep_component c = true
                   /\ OutputLocator.no_sep c = true) comps ->
  forall path,
    path <> ""%string -> endswith_char path sep = false ->
    PathResolver.resolve_loop fs B path comps
    = match comps with
      | [] => path
      | _ => (path ++ "/" ++ String.concat "/" comps)%string
      end.
Proof.
  intros Hfs Hall. induction Hall as [|c rest [Hk Hn] _ IH];
    intros path Hne Hend; [reflexivity|].
  assert (Hc : c <> ""%string).
  { intros ->. discriminate. }
  assert (Hstep : PathResolver.resolve_step fs B path c
                  = (path ++ String sep c)%string).
  { unfold PathResolver.resolve_step, PathResolver.join.
    rewrite (no_sep_startswith c Hn), Hend.
    apply String.eqb_neq in Hne. rewrite Hne. cbn [orb].
    now rewrite Hfs. }
  cbn [PathResolver.resolve_loop]. rewrite Hstep, IH.
  - destruct rest as [|c' rest]; [reflexivity|].
    change (String.concat "/" (c :: c' :: rest))
      with (c ++ "/" ++ String.concat "/" (c' :: rest))%string.
    rewrite string_app_assoc. reflexivity.
  - destruct path; discriminate.
  - rewrite endswith_char_app; [|discriminate].
    destruct c as [|x c]; [congruence|].
    change (endswith_char (String sep (String x c)) sep)
      with (endswith_char (String x c) sep).
    now apply no_sep_endswith.
Qed.

(** X29: without symbolic links on the way, resolving an absolute path made
    of plain components (not empty, not ["."], without a slash) under a
    base that is not empty and does not end with a slash gives the base
    followed by the path. *)
Theorem resolve_without_symlinks (fs : PathResolver.filesystem)
  (B : string) (comps : list string) :
  (forall p, PathResolver.symlink fs p = None) ->
  B <> ""%string ->
  endswith_char B sep = false ->
  comps <> [] ->
  Forall (fun c => PathResolver.keep_component c = true
                   /\ OutputLocator.no_sep c = true) comps ->
  PathResolver.resolve_proc_root_links fs B
    ("/" ++ String.concat "/" comps)
  = Ok (B ++ "/" ++ String.concat "/" comps)%string.
Proof.
  intros Hfs HB Hend Hne Hall.
  assert (Hsep : Forall (fun w => OutputLocator.no_sep w = true) comps).
  { eapply Forall_impl; [|exact Hall]. now intros c [_ H]. }
  assert (Hkeep : Forall (fun w => PathResolver.keep_component w = true)
                    comps).
  { eapply Forall_impl; [|exact Hall]. now intros c [H _]. }
  assert (Hrel : startswith_char (String.concat "/" comps) sep = false).
  { pose proof (split_no_leading_sep sep (String.concat "/" comps)) as Hs.
    rewrite (split_concat comps Hne Hsep) in Hs.
    destruct comps as [|w rest]; [congruence|].
    inversion Hall as [|? ? [Hk Hn] _]; subst.
    destruct w as [|x w]; [discriminate|].
    destruct rest; simpl in *; apply andb_true_iff in Hn as [Hx _];
      now apply negb_true_iff in Hx. }
  unfold PathResolver.resolve_proc_root_links.
  change ("/" ++ String.concat "/" comps)%string
    with (String sep (String.concat "/" comps)).
  rewrite (parts_single_slash _ Hrel), (split_concat comps Hne Hsep).
  rewrite (filter_all _ _ Hkeep). cbn [String.eqb Ascii.eqb Bool.eqb].
  rewrite (resolve_loop_plain fs B comps Hfs Hall B HB Hend).
  destruct comps; [congruence | reflexivity].
Qed.

Lemma resolve_without_symlinks_witness :
  PathResolver.resolve_proc_root_links
    {| PathResolver.symlink := fun _ => None |} "/proc/7/root"
    ("/" ++ String.concat "/" ["usr"; "lib"; "libc.so"])
  = Ok ("/proc/7/root" ++ "/" ++ String.concat "/" ["usr"; "lib"; "libc.so"])%string.
Proof.
  apply (resolve_without_symlinks
           {| PathResolver.symlink := fun _ => None |} "/proc/7/root"
           ["usr"; "lib"; "libc.so"]).
  - reflexivity.
  - discriminate.
  - reflexivity.
  - discriminate.
  - repeat constructor.
Defined.
